(** * Camera rig of the 3D scene viewer (src/components/scene.jsx)

    A shallow embedding of the [CameraRig] component: its two event handlers
    ([handlePointerMove], [handleWheel]) and its per-frame callback
    ([useFrame]), together with the part of [Scene] that fixes the initial
    camera pose.

    Numbers.  JavaScript numbers are modelled as exact rationals [Q] with
    their usual order; the decimal literals of the source (0.1, 0.02, 0.035,
    0.025, 0.75) denote the corresponding fractions.  Rounding of binary64
    arithmetic is therefore outside the model: what is proved of sums,
    products and bounds is proved in exact arithmetic, and the module
    [Binary64] re-runs the scroll step and the position update on the
    primitive floats where the two differ.  The non-finite values are outside
    the model too: [Qdiv] is total with [q / 0 == 0], where JavaScript yields an
    infinity or NaN, so every statement that divides by the viewport size
    assumes that size positive.

    Objects.  [THREE.Vector3] and [THREE.Euler] values are mutable objects
    that the component shares through references.  They live in two typed
    stores, indexed by locations; [clone()] and [new] allocate a fresh
    location.  The camera, the refs of the component and the React state are
    fields of one record [Rig]. *)

From Stdlib Require Import QArith Qround Reals Qreals Psatz.
From Stdlib Require PrimFloat FloatOps SpecFloat.
From stdpp Require Import gmap strings.

Local Open Scope Q_scope.

(** ** Values *)

Module Vector3.
(** The three numeric fields of a [THREE.Vector3]. *)
Record t : Type := mk { x : Q; y : Q; z : Q }.

Definition set_y (v : t) (q : Q) : t := mk (x v) q (z v).

(** Modelled from the spec: [THREE.Vector3.prototype.lerp] belongs to the
    three.js library and is not under src/.  The glossary gives
    lerp(a, b, t) = a + (b - a) * t; the library applies it to each field
    ([this.x += (v.x - this.x) * alpha], and the same for y and z). *)
Definition lerp (this v : t) (alpha : Q) : t :=
  mk (x this + (x v - x this) * alpha)
     (y this + (y v - y this) * alpha)
     (z this + (z v - z this) * alpha).

(** Field-wise numeric equality (three.js [equals]). *)
Definition equals (a b : t) : Prop :=
  x a == x b /\ y a == y b /\ z a == z b.

(** three.js [distanceToSquared]. *)
Definition distanceToSquared (a b : t) : Q :=
  (x a - x b) * (x a - x b) + (y a - y b) * (y a - y b)
  + (z a - z b) * (z a - z b).

(** three.js [distanceTo], [Math.sqrt(this.distanceToSquared(v))]: the
    Euclidean distance, a real number. *)
Definition distanceTo (a b : t) : R := sqrt (Q2R (distanceToSquared a b)).

End Vector3.

Module Euler.
(** The three angles of a [THREE.Euler]; its rotation order is never
    touched by the component and is left out. *)
Record t : Type := mk { x : Q; y : Q; z : Q }.

Definition set_x (e : t) (q : Q) : t := mk q (y e) (z e).
Definition set_y (e : t) (q : Q) : t := mk (x e) q (z e).

(** Field-wise numeric equality (three.js [equals], order apart). *)
Definition equals (a b : t) : Prop :=
  x a == x b /\ y a == y b /\ z a == z b.
End Euler.

Module Mouse.
(** The React state [mouse]: a plain object with fields x and y. *)
Record t : Type := mk { x : Q; y : Q }.
End Mouse.

Module Size.
(** [size] of [useThree()]: the viewport in pixels. *)
Record t : Type := mk { width : Q; height : Q }.
End Size.

(** The fields the handlers read from the DOM events. *)
Record PointerEvent : Type := mkPointerEvent { clientX : Q; clientY : Q }.
Record WheelEvent : Type := mkWheelEvent { deltaY : Q }.

(** ** The object stores *)

Definition loc : Type := positive.

(** Allocation of a new object: a location outside the store. *)
Definition alloc {A : Type} (h : gmap loc A) (v : A) : loc * gmap loc A :=
  let l := fresh (dom h) in (l, <[l := v]> h).

(** three.js [clone()] (library code, not under src/): a new object with
    the fields of the receiver. *)
Definition clone {A : Type} (h : gmap loc A) (l : loc) : option (loc * gmap loc A) :=
  v ← h !! l; Some (alloc h v).

(** ** The state of the component *)

Record Rig : Type := mkRig {
  vectors : gmap loc Vector3.t;      (* every THREE.Vector3 object *)
  eulers : gmap loc Euler.t;         (* every THREE.Euler object *)
  camera_position : loc;             (* camera.position *)
  camera_rotation : loc;             (* camera.rotation *)
  size : Size.t;                     (* const { camera, size } = useThree() *)
  mouse : Mouse.t;                   (* useState({ x: 0, y: 0 }) *)
  initialRotation : loc;             (* initialRotation.current *)
  targetCameraPos : loc;             (* targetCameraPos.current *)
  originalPosition : loc             (* originalPosition.current *)
}.

Definition set_vectors (h : gmap loc Vector3.t) (s : Rig) : Rig :=
  mkRig h (eulers s) (camera_position s) (camera_rotation s) (size s)
        (mouse s) (initialRotation s) (targetCameraPos s) (originalPosition s).

Definition set_eulers (h : gmap loc Euler.t) (s : Rig) : Rig :=
  mkRig (vectors s) h (camera_position s) (camera_rotation s) (size s)
        (mouse s) (initialRotation s) (targetCameraPos s) (originalPosition s).

Definition setMouse (m : Mouse.t) (s : Rig) : Rig :=
  mkRig (vectors s) (eulers s) (camera_position s) (camera_rotation s) (size s)
        m (initialRotation s) (targetCameraPos s) (originalPosition s).

Definition set_targetCameraPos (l : loc) (s : Rig) : Rig :=
  mkRig (vectors s) (eulers s) (camera_position s) (camera_rotation s) (size s)
        (mouse s) (initialRotation s) l (originalPosition s).

(** Reading through the references. *)
Definition position (s : Rig) : option Vector3.t := vectors s !! camera_position s.
Definition rotation (s : Rig) : option Euler.t := eulers s !! camera_rotation s.
Definition targetPos (s : Rig) : option Vector3.t := vectors s !! targetCameraPos s.
Definition originPos (s : Rig) : option Vector3.t := vectors s !! originalPosition s.
Definition rotationBaseline (s : Rig) : option Euler.t := eulers s !! initialRotation s.

(** ** The handlers *)

(** [handlePointerMove], scene.jsx lines 60-68. *)
Definition handlePointerMove (event : PointerEvent) (s : Rig) : Rig :=
  setMouse
    (Mouse.mk ((clientX event / Size.width (size s)) * 2 - 1)
              ((clientY event / Size.height (size s)) * 2 - 1))
    s.

(** [handleWheel], scene.jsx lines 71-80.  The result is [None] only when a
    reference dangles, which [rig_ok] below excludes. *)
Definition handleWheel (event : WheelEvent) (s : Rig) : option Rig :=
  if Qlt_le_dec 0 (deltaY event) then
    (* targetCameraPos.current = targetCameraPos.current.clone() *)
    '(l, h) ← clone (vectors s) (targetCameraPos s);
    let s1 := set_targetCameraPos l (set_vectors h s) in
    (* targetCameraPos.current.y += 0.1 *)
    v ← vectors s1 !! targetCameraPos s1;
    Some (set_vectors
            (<[targetCameraPos s1 := Vector3.set_y v (Vector3.y v + 0.1)]> (vectors s1))
            s1)
  else if Qlt_le_dec (deltaY event) 0 then
    (* targetCameraPos.current = originalPosition.current.clone() *)
    '(l, h) ← clone (vectors s) (originalPosition s);
    Some (set_targetCameraPos l (set_vectors h s))
  else Some s.

(** The callback given to [useFrame], scene.jsx lines 93-101.  Each
    assignment reads the stores as the previous one left them. *)
Definition useFrame (s : Rig) : option Rig :=
  (* camera.rotation.y = initialRotation.current.y - mouse.x * 0.035 *)
  r0 ← eulers s !! initialRotation s;
  r ← eulers s !! camera_rotation s;
  let s1 :=
    set_eulers
      (<[camera_rotation s := Euler.set_y r (Euler.y r0 - Mouse.x (mouse s) * 0.035)]>
         (eulers s)) s in
  (* camera.rotation.x = initialRotation.current.x - mouse.y * 0.025 *)
  r0 ← eulers s1 !! initialRotation s1;
  r ← eulers s1 !! camera_rotation s1;
  let s2 :=
    set_eulers
      (<[camera_rotation s1 := Euler.set_x r (Euler.x r0 - Mouse.y (mouse s1) * 0.025)]>
         (eulers s1)) s1 in
  (* camera.position.lerp(targetCameraPos.current, 0.02) *)
  v ← vectors s2 !! targetCameraPos s2;
  this ← vectors s2 !! camera_position s2;
  Some (set_vectors (<[camera_position s2 := Vector3.lerp this v 0.02]> (vectors s2)) s2).

(** ** Mounting *)

(** The first render of [CameraRig] (scene.jsx lines 47-57) for a camera
    whose position and rotation objects are [cam_pos] and [cam_rot]. *)
Definition CameraRig (vs : gmap loc Vector3.t) (es : gmap loc Euler.t)
    (cam_pos cam_rot : loc) (sz : Size.t) : option Rig :=
  (* useRef(camera.rotation.clone()) *)
  '(l_rot, es1) ← clone es cam_rot;
  (* useRef(camera.position.clone()) *)
  '(l_target, vs1) ← clone vs cam_pos;
  (* useRef(new THREE.Vector3(7, 0.75, 1)) *)
  let '(l_orig, vs2) := alloc vs1 (Vector3.mk 7 0.75 1) in
  Some (mkRig vs2 es1 cam_pos cam_rot sz (Mouse.mk 0 0) l_rot l_target l_orig).

(** [Scene] (scene.jsx line 121): the canvas creates the camera at position
    [7, 0.75, 1]; its rotation [rot0] is whatever the host derives for that
    pose, and [sz] is the size of the canvas. *)
Definition Scene (rot0 : Euler.t) (sz : Size.t) : option Rig :=
  let '(cam_pos, vs) := alloc ∅ (Vector3.mk 7 0.75 1) in
  let '(cam_rot, es) := alloc ∅ rot0 in
  CameraRig vs es cam_pos cam_rot sz.

(** ** Runs of the component *)

Inductive event : Type :=
| PointerMove (e : PointerEvent)
| Wheel (e : WheelEvent)
| Frame.

Definition step (ev : event) (s : Rig) : option Rig :=
  match ev with
  | PointerMove e => Some (handlePointerMove e s)
  | Wheel e => handleWheel e s
  | Frame => useFrame s
  end.

Fixpoint run (evs : list event) (s : Rig) : option Rig :=
  match evs with
  | [] => Some s
  | ev :: rest => s' ← step ev s; run rest s'
  end.

(** ** Well-formed states

    No reference dangles, and the objects the component keeps apart are
    apart: the rotation baseline is not the camera's own rotation object, and
    the camera position, the target and the origin are three objects. *)
Definition rig_ok (s : Rig) : bool :=
  bool_decide (is_Some (position s))
  && bool_decide (is_Some (rotation s))
  && bool_decide (is_Some (rotationBaseline s))
  && bool_decide (is_Some (targetPos s))
  && bool_decide (is_Some (originPos s))
  && bool_decide (initialRotation s ≠ camera_rotation s)
  && bool_decide (targetCameraPos s ≠ camera_position s)
  && bool_decide (originalPosition s ≠ camera_position s)
  && bool_decide (originalPosition s ≠ targetCameraPos s).

(** What a handler must leave alone: the camera transform ... *)
Definition camera_unchanged (s s' : Rig) : Prop :=
  camera_position s' = camera_position s ∧ camera_rotation s' = camera_rotation s
  ∧ position s' = position s ∧ rotation s' = rotation s.

(** ... and the constants of the component. *)
Definition constants_unchanged (s s' : Rig) : Prop :=
  size s' = size s ∧ rotationBaseline s' = rotationBaseline s
  ∧ originPos s' = originPos s.

(** The origin of the scroll motion, [new THREE.Vector3(7, 0.75, 1)]. *)
Definition origin : Vector3.t := Vector3.mk 7 0.75 1.

(** The invariant of the mounted scene with initial camera rotation [rot0]. *)
Record scene_inv (rot0 : Euler.t) (sz : Size.t) (s : Rig) : Prop := {
  inv_ok : rig_ok s = true;
  inv_size : size s = sz;
  inv_baseline : rotationBaseline s = Some rot0;
  inv_origin : originPos s = Some origin;
  inv_roll : ∃ r, rotation s = Some r ∧ Euler.z r = Euler.z rot0;
  inv_target : ∃ (t : Vector3.t) (k : nat),
      targetPos s = Some t ∧ Vector3.x t = 7 ∧ Vector3.z t = 1
      ∧ Vector3.y t == 0.75 + 0.1 * inject_Z (Z.of_nat k)
}.

(** [n] frames in a row, with no input event in between. *)
Definition frames (n : nat) : list event := repeat Frame n.

(** A concrete mounted scene: viewport 800 x 600, initial camera rotation
    (-0.6, 1.4, 0.6). *)
Definition viewer_rot0 : Euler.t := Euler.mk (-0.6) 1.4 0.6.
Definition viewer_size : Size.t := Size.mk 800 600.
Definition viewer : Rig :=
  mkRig {[1%positive := origin; 2%positive := origin; 3%positive := origin]}
        {[1%positive := viewer_rot0; 2%positive := viewer_rot0]}
        1%positive 1%positive viewer_size (Mouse.mk 0 0)
        2%positive 2%positive 3%positive.

(** The same scene after one downward scroll: the target is a new object,
    0.1 above the camera. *)
Definition viewer_scrolled : Rig :=
  mkRig {[1%positive := origin; 2%positive := origin; 3%positive := origin;
          4%positive := Vector3.mk 7 (0.75 + 0.1) 1]}
        {[1%positive := viewer_rot0; 2%positive := viewer_rot0]}
        1%positive 1%positive viewer_size (Mouse.mk 0 0)
        2%positive 4%positive 3%positive.

(** ** The scroll step in binary64

    The host's numbers are binary64 floats.  This module re-runs the one
    arithmetic statement of [handleWheel], [targetCameraPos.current.y += 0.1],
    on the primitive floats, to compare the rounded sums with the exact ones
    of the model above; it does the same for the position update of
    [useFrame]. *)
Module Binary64.
Import PrimFloat.
Local Open Scope float_scope.

(** The floats the literals 0.1, 0.75, 1.05 and 1.15 denote. *)
Definition lit_0_1 : float := 0x1.999999999999ap-4.
Definition lit_0_75 : float := 0x1.8p-1.
Definition lit_1_05 : float := 0x1.0cccccccccccdp+0.
Definition lit_1_15 : float := 0x1.2666666666666p+0.

Definition scroll_step (y : float) : float := y + lit_0_1.

Definition scroll_steps (n : nat) (y : float) : float :=
  Nat.iter n scroll_step y.

(** The float the literal 0.02 denotes. *)
Definition lit_0_02 : float := 0x1.47ae147ae147bp-6.

(** The JavaScript number that holds the natural number [n] (exact below
    2^53). *)
Definition of_nat (n : nat) : float := Nat.iter n (fun f => f + 1) 0.



(** A [THREE.Vector3] with binary64 fields. *)
Record vector : Type := mkVector { x : float; y : float; z : float }.

(** three.js [lerp] on one field, [this.x += (v.x - this.x) * alpha], and on
    the three of them. *)
Definition lerp1 (this v alpha : float) : float := this + (v - this) * alpha.

Definition lerp (this v : vector) (alpha : float) : vector :=
  mkVector (lerp1 (x this) (x v) alpha) (lerp1 (y this) (y v) alpha)
           (lerp1 (z this) (z v) alpha).

(** three.js [equals]: the fields compared with [===]. *)
Definition equals (a b : vector) : bool :=
  (x a =? x b) && (y a =? y b) && (z a =? z b).

(** three.js [distanceTo]: [Math.sqrt(dx * dx + dy * dy + dz * dz)]. *)
Definition distanceTo (a b : vector) : float :=
  let dx := x a - x b in
  let dy := y a - y b in
  let dz := z a - z b in
  sqrt (dx * dx + dy * dy + dz * dz).

(** The camera position at mount, [7, 0.75, 1]. *)
Definition origin : vector := mkVector 7 lit_0_75 1.

(** The first branch of [handleWheel] on the target: a clone whose y is
    raised by 0.1. *)
Definition handleWheel_down (t : vector) : vector :=
  mkVector (x t) (scroll_step (y t)) (z t).

(** The position update of [useFrame],
    [camera.position.lerp(targetCameraPos.current, 0.02)], and [n] of them
    with the target [t] at rest. *)
Definition useFrame_position (t p : vector) : vector := lerp p t lit_0_02.

Definition after_frames (n : nat) (t p : vector) : vector :=
  Nat.iter n (useFrame_position t) p.

(** The mounted scene after one wheel event with positive deltaY: the
    target, and the camera 1539 frames later. *)
Definition scrolled_target : vector := handleWheel_down origin.

Definition late_position : vector := after_frames 1539 scrolled_target origin.
End Binary64.

(** ** Kinds of events *)

Definition is_pointer (ev : event) : bool :=
  match ev with PointerMove _ => true | _ => false end.

Definition is_wheel (ev : event) : bool :=
  match ev with Wheel _ => true | _ => false end.

(** A run with its pointer-move events, or its wheel events, taken out. *)
Definition without_pointer (evs : list event) : list event :=
  List.filter (λ ev, negb (is_pointer ev)) evs.

Definition without_wheel (evs : list event) : list event :=
  List.filter (λ ev, negb (is_wheel ev)) evs.

(** The wheel events that take the first branch of [handleWheel]. *)
Definition scrolls_down (ev : event) : bool :=
  match ev with
  | Wheel e => if Qlt_le_dec 0 (deltaY e) then true else false
  | _ => false
  end.

Definition scroll_downs (evs : list event) : nat :=
  length (List.filter scrolls_down evs).

(** A pointer-move event inside a viewport of size [sz]. *)
Definition in_viewport (sz : Size.t) (ev : event) : Prop :=
  match ev with
  | PointerMove e =>
      (0 <= clientX e <= Size.width sz) /\ (0 <= clientY e <= Size.height sz)
  | _ => True
  end.

(** Two states with the same vectors behind the same references ... *)
Definition same_positions (s s' : Rig) : Prop :=
  vectors s = vectors s' ∧ camera_position s = camera_position s'
  ∧ targetCameraPos s = targetCameraPos s'
  ∧ originalPosition s = originalPosition s'.

(** ... and with the same rotations, pointer state and viewport. *)
Definition same_rotations (s s' : Rig) : Prop :=
  eulers s = eulers s' ∧ camera_rotation s = camera_rotation s'
  ∧ initialRotation s = initialRotation s'
  ∧ mouse s = mouse s' ∧ size s = size s'.

(** A point on the vertical through the origin, between the origin and [b]
    steps of 0.1 above it. *)
Definition on_vertical (b : nat) (v : Vector3.t) : Prop :=
  Vector3.x v == 7 /\ Vector3.z v == 1
  /\ 0.75 <= Vector3.y v <= 0.75 + 0.1 * inject_Z (Z.of_nat b).

(** Camera and target are both such points. *)
Definition height_inv (b : nat) (s : Rig) : Prop :=
  rig_ok s = true ∧ originPos s = Some origin
  ∧ (∃ p, position s = Some p ∧ on_vertical b p)
  ∧ (∃ t, targetPos s = Some t ∧ on_vertical b t).

(** A rotation within 0.025 of pitch and 0.035 of yaw of [rot0]. *)
Definition near_baseline (rot0 r : Euler.t) : Prop :=
  (Euler.x rot0 - 0.025 <= Euler.x r <= Euler.x rot0 + 0.025)
  /\ (Euler.y rot0 - 0.035 <= Euler.y r <= Euler.y rot0 + 0.035).

(** The pointer state is in the unit square and the camera looks near its
    baseline. *)
Definition turn_inv (rot0 : Euler.t) (sz : Size.t) (s : Rig) : Prop :=
  rig_ok s = true ∧ size s = sz ∧ rotationBaseline s = Some rot0
  ∧ (-1 <= Mouse.x (mouse s) <= 1) ∧ (-1 <= Mouse.y (mouse s) <= 1)
  ∧ ∃ r, rotation s = Some r ∧ near_baseline rot0 r.

(** ** The loaded model (scene.jsx lines 7-30)

    [Model] places the loaded scene graph once it is there: it moves the
    root so that its bounding box is centred on the vertical axis and rests
    on the ground, and switches the shadows of every mesh on. *)

Module Box3.
(** A [THREE.Box3], the axis-aligned box between two corners. *)
Record t : Type := mk { min : Vector3.t; max : Vector3.t }.

(** three.js [isEmpty] (library code, not under src/): some extent is
    negative. *)
Definition isEmpty (b : t) : bool :=
  (if Qlt_le_dec (Vector3.x (max b)) (Vector3.x (min b)) then true else false)
  || (if Qlt_le_dec (Vector3.y (max b)) (Vector3.y (min b)) then true else false)
  || (if Qlt_le_dec (Vector3.z (max b)) (Vector3.z (min b)) then true else false).

(** three.js [getCenter] (library code): the origin for an empty box, else
    [(min + max) * 0.5]. *)
Definition getCenter (b : t) : Vector3.t :=
  if isEmpty b then Vector3.mk 0 0 0
  else Vector3.mk ((Vector3.x (min b) + Vector3.x (max b)) * 0.5)
                  ((Vector3.y (min b) + Vector3.y (max b)) * 0.5)
                  ((Vector3.z (min b) + Vector3.z (max b)) * 0.5).

(** three.js [translate] (library code): both corners moved by [offset]. *)
Definition translate (b : t) (offset : Vector3.t) : t :=
  mk (Vector3.mk (Vector3.x (min b) + Vector3.x offset)
                 (Vector3.y (min b) + Vector3.y offset)
                 (Vector3.z (min b) + Vector3.z offset))
     (Vector3.mk (Vector3.x (max b) + Vector3.x offset)
                 (Vector3.y (max b) + Vector3.y offset)
                 (Vector3.z (max b) + Vector3.z offset)).
End Box3.

Module Object3D.
(** The fields of a [THREE.Object3D] that [Model] reads or writes. *)
Record fields : Type := mkFields {
  isMesh : bool;
  castShadow : bool;
  receiveShadow : bool;
  position : Vector3.t
}.

(** A node of the scene graph with its children, in order. *)
#[local] Unset Elimination Schemes.
Inductive t : Type := mk (own : fields) (children : list t).
#[local] Set Elimination Schemes.

Definition own (o : t) : fields := match o with mk f _ => f end.
Definition children (o : t) : list t := match o with mk _ ch => ch end.

(** three.js [traverse] (library code, not under src/): [callback(this)],
    then [children[i].traverse(callback)] for each child in order.  A
    callback writes fields of the object it is given. *)
Fixpoint traverse (callback : fields -> fields) (o : t) : t :=
  match o with
  | mk f ch => mk (callback f) (List.map (traverse callback) ch)
  end.

(** The objects [traverse] visits, in the order it visits them. *)
Fixpoint nodes (o : t) : list fields :=
  match o with
  | mk f ch => f :: List.flat_map nodes ch
  end.
End Object3D.

(** The callback of [scene.traverse], scene.jsx lines 21-26. *)
Definition enableShadows (child : Object3D.fields) : Object3D.fields :=
  if Object3D.isMesh child
  then Object3D.mkFields (Object3D.isMesh child) true true (Object3D.position child)
  else child.

(** The effect of [Model], scene.jsx lines 10-27, on the loaded [scene];
    [box] is the result of [new THREE.Box3().setFromObject(scene)], the
    bounding box the library computes.  [scene.updateMatrixWorld()] only
    refreshes the matrices the library derives from the fields below. *)
Definition Model_effect (box : Box3.t) (scene : Object3D.t) : Object3D.t :=
  let center := Box3.getCenter box in
  let f := Object3D.own scene in
  let p := Object3D.position f in
  (* scene.position.x -= center.x *)
  let p := Vector3.mk (Vector3.x p - Vector3.x center) (Vector3.y p) (Vector3.z p) in
  (* scene.position.z -= center.z *)
  let p := Vector3.mk (Vector3.x p) (Vector3.y p) (Vector3.z p - Vector3.z center) in
  (* scene.position.y -= box.min.y *)
  let p := Vector3.mk (Vector3.x p) (Vector3.y p - Vector3.y (Box3.min box)) (Vector3.z p) in
  let scene1 :=
    Object3D.mk
      (Object3D.mkFields (Object3D.isMesh f) (Object3D.castShadow f)
                         (Object3D.receiveShadow f) p)
      (Object3D.children scene) in
  (* scene.traverse(...) *)
  Object3D.traverse enableShadows scene1.

(** The displacement from [a] to [b]. *)
Definition displacement (a b : Vector3.t) : Vector3.t :=
  Vector3.mk (Vector3.x b - Vector3.x a) (Vector3.y b - Vector3.y a)
             (Vector3.z b - Vector3.z a).

(** The position of the root of a graph. *)
Definition root_position (o : Object3D.t) : Vector3.t :=
  Object3D.position (Object3D.own o).

(** What [Model] keeps of a visited object: its kind and its position, and,
    unless it is a mesh, its two shadow flags. *)
Definition kept (a b : Object3D.fields) : Prop :=
  Object3D.isMesh b = Object3D.isMesh a
  ∧ Object3D.position b = Object3D.position a
  ∧ (Object3D.isMesh a = false →
     Object3D.castShadow b = Object3D.castShadow a
     ∧ Object3D.receiveShadow b = Object3D.receiveShadow a).

(** The same for a whole graph: node by node, child by child, in the same
    places. *)
#[local] Unset Elimination Schemes.
Inductive kept_graph : Object3D.t -> Object3D.t -> Prop :=
| kept_node (f f' : Object3D.fields) (ch ch' : list Object3D.t) :
    kept f f' -> Forall2 kept_graph ch ch' ->
    kept_graph (Object3D.mk f ch) (Object3D.mk f' ch').
#[local] Set Elimination Schemes.

(** A small graph: a group holding a mesh and a light, the latter with a
    mesh below it. *)
Definition sample_scene : Object3D.t :=
  Object3D.mk (Object3D.mkFields false false false (Vector3.mk 2 3 4))
    [Object3D.mk (Object3D.mkFields true false false (Vector3.mk 0 0 0)) [];
     Object3D.mk (Object3D.mkFields false true false (Vector3.mk 1 0 0))
       [Object3D.mk (Object3D.mkFields true false true (Vector3.mk 0 1 0)) []]].

Definition sample_box : Box3.t :=
  Box3.mk (Vector3.mk 1 2 3) (Vector3.mk 5 4 9).

(** ** The listeners of the component (scene.jsx lines 60-90)

    [CameraRig] registers its two handlers on [window] in an effect and
    removes them in the cleanup of that effect.  The handlers are function
    objects made by [useCallback]; which object a render gets, and when the
    effect runs again, is decided by React (library code, not under src/) by
    comparing dependencies with [Object.is]: [useCallback] returns the
    function of the previous render when no dependency changed, and an
    effect whose dependencies changed first runs the cleanup of its last run.
    Objects are compared by identity, so the [size] object of [useThree] and
    the function objects are represented by what identifies them. *)

Module Listeners.
(** A handler function object: the arrow function it comes from and the
    render that created it; [handlePointerMove] closes over the [size]
    object of that render. *)
Inductive fn : Type :=
| HandlePointerMove (render : nat) (size_object : nat)
| HandleWheel (render : nat).

(** A callback registered on [window]: one of the component, or one of
    somebody else. *)
Inductive callback : Type :=
| Own (f : fn)
| Other (k : nat).

#[global] Instance fn_eq_dec : EqDecision fn.
Proof. solve_decision. Defined.

#[global] Instance callback_eq_dec : EqDecision callback.
Proof. solve_decision. Defined.

(** The event listener list of [window]: type and callback. *)
Definition listener : Type := string * callback.

(** DOM [addEventListener]: appended, unless the same type and callback are
    listed already. *)
Definition addEventListener (type : string) (cb : callback)
    (w : list listener) : list listener :=
  if decide ((type, cb) ∈ w) then w else w ++ [(type, cb)].

(** DOM [removeEventListener]: the listener of that type and callback is
    taken off the list. *)
Definition removeEventListener (type : string) (cb : callback)
    (w : list listener) : list listener :=
  List.filter (λ l, negb (bool_decide (l = (type, cb)))) w.

(** What React keeps for the component between renders. *)
Record Component : Type := mkComponent {
  renders : nat;            (* number of renders so far *)
  size_dep : nat;           (* the [size] the memoised handlePointerMove was made for *)
  memoPointerMove : fn;     (* useCallback(..., [size]) *)
  memoWheel : fn;           (* useCallback(..., []) *)
  effect_deps : fn * fn     (* [handlePointerMove, handleWheel] of the last effect run *)
}.

(** The effect, scene.jsx lines 84-85. *)
Definition attach (hp hw : fn) (w : list listener) : list listener :=
  addEventListener "wheel" (Own hw) (addEventListener "pointermove" (Own hp) w).

(** Its cleanup, scene.jsx lines 87-88. *)
Definition detach (hp hw : fn) (w : list listener) : list listener :=
  removeEventListener "wheel" (Own hw) (removeEventListener "pointermove" (Own hp) w).

(** First render and commit, with [size] the object [sz]. *)
Definition mount (sz : nat) (w : list listener) : Component * list listener :=
  let hp := HandlePointerMove 0 sz in
  let hw := HandleWheel 0 in
  (mkComponent 1 sz hp hw (hp, hw), attach hp hw w).

(** A later render and commit, with [size] the object [sz]. *)
Definition render (sz : nat) (cw : Component * list listener)
    : Component * list listener :=
  let '(c, w) := cw in
  let hp := if decide (sz = size_dep c) then memoPointerMove c
            else HandlePointerMove (renders c) sz in
  let hw := memoWheel c in
  let w' := if decide ((hp, hw) = effect_deps c) then w
            else attach hp hw (detach (effect_deps c).1 (effect_deps c).2 w) in
  (mkComponent (S (renders c)) sz hp hw (hp, hw), w').

(** Unmounting runs the cleanup of the last effect run. *)
Definition unmount (cw : Component * list listener) : list listener :=
  let '(c, w) := cw in detach (effect_deps c).1 (effect_deps c).2 w.

(** The component after it is mounted and rendered again for each of the
    size objects [szs], in order. *)
Definition mounted (sz : nat) (szs : list nat) (w : list listener)
    : Component * list listener :=
  fold_left (λ cw sz', render sz' cw) szs (mount sz w).

(** A listener that is not the component's. *)
Definition foreign (l : listener) : Prop :=
  match l.2 with Own _ => False | Other _ => True end.
End Listeners.

(** The state of a mounted component whose last render saw the size object
    [sz], over a window that held [w0] before: the two handlers of the last
    effect run are listed after [w0], once each. *)
Definition attached (w0 : list Listeners.listener) (sz : nat)
    (cw : Listeners.Component * list Listeners.listener) : Prop :=
  ∃ k : nat,
    (k < Listeners.renders cw.1)%nat
    ∧ Listeners.size_dep cw.1 = sz
    ∧ Listeners.memoPointerMove cw.1 = Listeners.HandlePointerMove k sz
    ∧ Listeners.memoWheel cw.1 = Listeners.HandleWheel 0
    ∧ Listeners.effect_deps cw.1
      = (Listeners.HandlePointerMove k sz, Listeners.HandleWheel 0)
    ∧ cw.2 = w0 ++ [("pointermove"%string, Listeners.Own (Listeners.HandlePointerMove k sz));
                    ("wheel"%string, Listeners.Own (Listeners.HandleWheel 0))].

(** * Proofs *)

Lemma viewer_mounted : Scene viewer_rot0 viewer_size = Some viewer.
Proof. vm_compute. reflexivity. Qed.

Lemma viewer_scrolled_run :
  run [Wheel (mkWheelEvent 1)] viewer = Some viewer_scrolled.
Proof. vm_compute. reflexivity. Qed.

(** ** The stores *)

Lemma rig_ok_spec (s : Rig) :
  rig_ok s = true ↔
  (is_Some (position s) ∧ is_Some (rotation s) ∧ is_Some (rotationBaseline s)
   ∧ is_Some (targetPos s) ∧ is_Some (originPos s))
  ∧ initialRotation s ≠ camera_rotation s
  ∧ targetCameraPos s ≠ camera_position s
  ∧ originalPosition s ≠ camera_position s
  ∧ originalPosition s ≠ targetCameraPos s.
Proof.
  unfold rig_ok. rewrite !andb_true_iff, !bool_decide_eq_true. tauto.
Qed.

(** A location that holds an object is not the one [alloc] hands out. *)
Lemma fresh_ne {A : Type} (h : gmap loc A) (l : loc) :
  is_Some (h !! l) → fresh (dom h) ≠ l.
Proof.
  intros Hl <-. apply elem_of_dom in Hl. by apply (is_fresh (dom h)).
Qed.

(** ** [handleWheel] *)

(** What changes, and what does not, when the handler takes its first
    branch. *)
Lemma handleWheel_down (e : WheelEvent) (s : Rig) (t : Vector3.t) :
  rig_ok s = true → targetPos s = Some t → 0 < deltaY e →
  ∃ s', handleWheel e s = Some s'
    ∧ targetPos s' = Some (Vector3.mk (Vector3.x t) (Vector3.y t + 0.1) (Vector3.z t))
    ∧ rig_ok s' = true
    ∧ camera_unchanged s s' ∧ constants_unchanged s s' ∧ mouse s' = mouse s.
Proof.
  intros Hok Ht Hpos.
  apply rig_ok_spec in Hok as ((Hp & Hr & Hb & _ & Ho) & Hne1 & Hne2 & Hne3 & Hne4).
  unfold position, rotation, rotationBaseline, targetPos, originPos in *.
  pose proof (fresh_ne _ _ Hp) as Hfp.
  pose proof (fresh_ne _ _ Ho) as Hfo.
  unfold handleWheel. destruct (Qlt_le_dec 0 (deltaY e)) as [_|Hle]; [|lra].
  unfold clone, alloc. rewrite Ht. simpl. rewrite lookup_insert_eq. simpl.
  eexists. split; [reflexivity|].
  unfold camera_unchanged, constants_unchanged, position, rotation,
    rotationBaseline, targetPos, originPos; simpl.
  rewrite rig_ok_spec.
  unfold position, rotation, rotationBaseline, targetPos, originPos; simpl.
  rewrite lookup_insert_eq, !lookup_insert_ne by done.
  repeat split; try done; congruence.
Qed.

Lemma handleWheel_up (e : WheelEvent) (s : Rig) (o : Vector3.t) :
  rig_ok s = true → originPos s = Some o → deltaY e < 0 →
  ∃ s', handleWheel e s = Some s'
    ∧ targetPos s' = Some o
    ∧ rig_ok s' = true
    ∧ camera_unchanged s s' ∧ constants_unchanged s s' ∧ mouse s' = mouse s.
Proof.
  intros Hok Ho Hneg.
  apply rig_ok_spec in Hok as ((Hp & Hr & Hb & _ & Ho') & Hne1 & Hne2 & Hne3 & Hne4).
  unfold position, rotation, rotationBaseline, targetPos, originPos in *.
  pose proof (fresh_ne _ _ Hp) as Hfp.
  pose proof (fresh_ne _ _ Ho') as Hfo.
  unfold handleWheel. destruct (Qlt_le_dec 0 (deltaY e)) as [Hlt|_]; [lra|].
  destruct (Qlt_le_dec (deltaY e) 0) as [_|Hle]; [|lra].
  unfold clone, alloc. rewrite Ho. simpl.
  eexists. split; [reflexivity|].
  unfold camera_unchanged, constants_unchanged, position, rotation,
    rotationBaseline, targetPos, originPos; simpl.
  rewrite rig_ok_spec.
  unfold position, rotation, rotationBaseline, targetPos, originPos; simpl.
  rewrite lookup_insert_eq, !lookup_insert_ne by done.
  repeat split; try done; congruence.
Qed.

Lemma handleWheel_zero (e : WheelEvent) (s : Rig) :
  deltaY e == 0 → handleWheel e s = Some s.
Proof.
  intros Hz. unfold handleWheel.
  destruct (Qlt_le_dec 0 (deltaY e)) as [Hlt|_]; [lra|].
  destruct (Qlt_le_dec (deltaY e) 0) as [Hlt|_]; [lra|]. reflexivity.
Qed.

(** ** [useFrame] *)

Lemma useFrame_spec (s : Rig) (r0 r : Euler.t) (p t : Vector3.t) :
  rig_ok s = true →
  rotationBaseline s = Some r0 → rotation s = Some r →
  position s = Some p → targetPos s = Some t →
  ∃ s', useFrame s = Some s'
    ∧ rotation s' = Some (Euler.mk (Euler.x r0 - Mouse.y (mouse s) * 0.025)
                                   (Euler.y r0 - Mouse.x (mouse s) * 0.035)
                                   (Euler.z r))
    ∧ position s' = Some (Vector3.lerp p t 0.02)
    ∧ targetPos s' = Some t
    ∧ rig_ok s' = true
    ∧ constants_unchanged s s' ∧ mouse s' = mouse s.
Proof.
  intros Hok Hb Hr Hp Ht.
  apply rig_ok_spec in Hok as ((_ & _ & _ & _ & Ho) & Hne1 & Hne2 & Hne3 & Hne4).
  unfold position, rotation, rotationBaseline, targetPos, originPos in *.
  unfold useFrame. rewrite Hb, Hr. simpl.
  rewrite lookup_insert_eq, lookup_insert_ne, Hb by done. simpl.
  rewrite Ht, Hp. simpl.
  eexists. split; [reflexivity|].
  unfold constants_unchanged, position, rotation,
    rotationBaseline, targetPos, originPos; simpl.
  rewrite rig_ok_spec.
  unfold position, rotation, rotationBaseline, targetPos, originPos; simpl.
  rewrite !lookup_insert_eq, !lookup_insert_ne by done.
  rewrite Hb, Ht.
  repeat split; try done; congruence.
Qed.

(** The rotation a frame leaves, for a camera whose roll is the baseline's. *)
Lemma rotation_baseline_frame (s : Rig) (r0 r : Euler.t) :
  rig_ok s = true → rotationBaseline s = Some r0 → rotation s = Some r →
  Euler.z r = Euler.z r0 →
  ∃ s' r', useFrame s = Some s' ∧ rotation s' = Some r' ∧ mouse s' = mouse s
           ∧ (Mouse.x (mouse s) == 0 ∧ Mouse.y (mouse s) == 0 → Euler.equals r' r0).
Proof.
  intros Hok Hb Hr Hz.
  assert (Hs : is_Some (position s) ∧ is_Some (targetPos s)).
  { apply rig_ok_spec in Hok. tauto. }
  destruct Hs as ([p Hp] & [t Ht]).
  destruct (useFrame_spec s r0 r p t Hok Hb Hr Hp Ht)
    as (s' & Hs' & Hr' & _ & _ & _ & _ & Hm').
  exists s'. eexists. split; [exact Hs'|]. split; [exact Hr'|]. split; [exact Hm'|].
  intros [Hx Hy]. unfold Euler.equals. simpl. rewrite Hz. repeat split; lra.
Qed.

(** ** Mounting and the invariant *)

Lemma Scene_mounts (rot0 : Euler.t) (sz : Size.t) :
  ∃ s0, Scene rot0 sz = Some s0 ∧ scene_inv rot0 sz s0
        ∧ position s0 = Some origin ∧ rotation s0 = Some rot0
        ∧ mouse s0 = Mouse.mk 0 0.
Proof.
  eexists. split; [vm_compute; reflexivity|].
  split; [|by vm_compute].
  split; try (by vm_compute).
  - exists rot0. by vm_compute.
  - exists origin, 0%nat. repeat split; try (by vm_compute).
Qed.

Lemma inject_nat_succ (k : nat) :
  inject_Z (Z.of_nat (S k)) == inject_Z (Z.of_nat k) + 1.
Proof. rewrite Nat2Z.inj_succ. unfold Z.succ. rewrite inject_Z_plus. reflexivity. Qed.

(** Every event is handled, and the invariant survives it. *)
Lemma step_inv (rot0 : Euler.t) (sz : Size.t) (ev : event) (s : Rig) :
  scene_inv rot0 sz s → ∃ s', step ev s = Some s' ∧ scene_inv rot0 sz s'.
Proof.
  intros [Hok Hsz Hb Ho (r & Hr & Hz) (t & k & Ht & Hx & Hzt & Hy)].
  destruct ev as [e|e|]; simpl.
  - eexists. split; [reflexivity|].
    split; try done.
    + by exists r.
    + by exists t, k.
  - destruct (Qlt_le_dec 0 (deltaY e)) as [Hpos|Hle].
    + destruct (handleWheel_down e s t Hok Ht Hpos)
        as (s' & Hs' & Ht' & Hok' & (_ & _ & _ & Hr') & (Hsz' & Hb' & Ho') & _).
      exists s'. split; [done|].
      split; try congruence.
      * exists r. split; congruence.
      * eexists _, (S k). split; [exact Ht'|]. simpl.
        rewrite inject_nat_succ, Hy. repeat split; try done. lra.
    + destruct (Qlt_le_dec (deltaY e) 0) as [Hneg|Hge].
      * destruct (handleWheel_up e s origin Hok Ho Hneg)
          as (s' & Hs' & Ht' & Hok' & (_ & _ & _ & Hr') & (Hsz' & Hb' & Ho') & _).
        exists s'. split; [done|].
        split; try congruence.
        -- exists r. split; congruence.
        -- exists origin, 0%nat. repeat split; try done.
      * exists s. split; [apply handleWheel_zero; lra|].
        split; try done.
        -- by exists r.
        -- by exists t, k.
  - assert (Hp : is_Some (position s)).
    { apply rig_ok_spec in Hok. tauto. }
    destruct Hp as [p Hp].
    destruct (useFrame_spec s rot0 r p t Hok Hb Hr Hp Ht)
      as (s' & Hs' & Hr' & Hp' & Ht' & Hok' & (Hsz' & Hb' & Ho') & _).
    exists s'. split; [done|].
    split; try congruence.
    + eexists. split; [exact Hr'|]. done.
    + by exists t, k.
Qed.

Lemma run_inv (rot0 : Euler.t) (sz : Size.t) (evs : list event) (s : Rig) :
  scene_inv rot0 sz s → ∃ s', run evs s = Some s' ∧ scene_inv rot0 sz s'.
Proof.
  revert s. induction evs as [|ev evs IH]; intros s Hinv; simpl.
  - by exists s.
  - destruct (step_inv rot0 sz ev s Hinv) as (s1 & Hs1 & Hinv1).
    rewrite Hs1. simpl. by apply IH.
Qed.

Lemma run_app (evs1 evs2 : list event) (s : Rig) :
  run (evs1 ++ evs2) s = s1 ← run evs1 s; run evs2 s1.
Proof.
  revert s. induction evs1 as [|ev evs1 IH]; intros s; simpl; [done|].
  destruct (step ev s) as [s1|]; simpl; [apply IH|done].
Qed.

(** The mounted scene handles every sequence of events. *)
Lemma reachable_inv (rot0 : Euler.t) (sz : Size.t) (evs : list event) :
  ∃ s0 s, Scene rot0 sz = Some s0 ∧ run evs s0 = Some s ∧ scene_inv rot0 sz s.
Proof.
  destruct (Scene_mounts rot0 sz) as (s0 & Hs0 & Hinv & _).
  destruct (run_inv rot0 sz evs s0 Hinv) as (s & Hs & Hinv').
  by exists s0, s.
Qed.

(** ** Arithmetic of the interpolation *)


Lemma lerp_distanceToSquared (p t : Vector3.t) (a : Q) :
  Vector3.distanceToSquared (Vector3.lerp p t a) t
  == (1 - a) * (1 - a) * Vector3.distanceToSquared p t.
Proof. unfold Vector3.distanceToSquared. simpl. ring. Qed.






(** One frame shrinks the Euclidean distance to the target by the factor
    0.98. *)
Lemma lerp_distanceTo (p t : Vector3.t) :
  (Vector3.distanceTo (Vector3.lerp p t 0.02) t = 0.98 * Vector3.distanceTo p t)%R.
Proof.
  unfold Vector3.distanceTo.
  rewrite (Qeq_eqR _ _ (lerp_distanceToSquared p t 0.02)).
  rewrite !Q2R_mult.
  assert (E : Q2R (1 - 0.02) = 0.98%R) by (rewrite Q2R_minus; unfold Q2R; simpl; lra).
  rewrite E, sqrt_mult_alt by nra.
  rewrite sqrt_square by lra. reflexivity.
Qed.


(** The position after [n] frames. *)
Lemma frames_spec (n : nat) (s : Rig) (p t : Vector3.t) :
  rig_ok s = true → position s = Some p → targetPos s = Some t →
  ∃ sn, run (frames n) s = Some sn
        ∧ position sn = Some (Nat.iter n (λ q, Vector3.lerp q t 0.02) p)
        ∧ targetPos sn = Some t ∧ rig_ok sn = true.
Proof.
  revert s p. induction n as [|n IH]; intros s p Hok Hp Ht.
  - exists s. by simpl.
  - assert (Hs : is_Some (rotationBaseline s) ∧ is_Some (rotation s)).
    { apply rig_ok_spec in Hok. tauto. }
    destruct Hs as [[r0 Hb] [r Hr]].
    destruct (useFrame_spec s r0 r p t Hok Hb Hr Hp Ht)
      as (s1 & Hs1 & _ & Hp1 & Ht1 & Hok1 & _).
    destruct (IH s1 _ Hok1 Hp1 Ht1) as (sn & Hrun & Hpn & Htn & Hokn).
    exists sn. rewrite Nat.iter_succ_r.
    split; [|done]. unfold frames in *. simpl. by rewrite Hs1.
Qed.

Lemma iter_lerp_distanceTo (n : nat) (p t : Vector3.t) :
  (Vector3.distanceTo (Nat.iter n (λ q, Vector3.lerp q t 0.02) p) t
   = 0.98 ^ n * Vector3.distanceTo p t)%R.
Proof.
  induction n as [|n IH]; simpl.
  - lra.
  - rewrite lerp_distanceTo, IH. lra.
Qed.

(** ** Normalisation of the pointer *)

Lemma normalise_range (c w : Q) :
  0 < w → (-1 <= c / w * 2 - 1 <= 1 ↔ 0 <= c <= w).
Proof.
  intros Hw. pose proof (Qmult_div_r c w ltac:(lra)) as Hq.
  set (q := c / w) in *. clearbody q.
  split; intros [H1 H2]; split; nra.
Qed.

Lemma normalise_lo (c w : Q) : 0 < w → c == 0 → c / w * 2 - 1 == -1.
Proof. intros Hw Hc. rewrite Hc. field. lra. Qed.

Lemma normalise_hi (c w : Q) : 0 < w → c == w → c / w * 2 - 1 == 1.
Proof. intros Hw Hc. rewrite Hc. field. lra. Qed.

(** ** Sequences of wheel events *)

Lemma handleWheel_any (e : WheelEvent) (s : Rig) :
  rig_ok s = true →
  ∃ s', handleWheel e s = Some s' ∧ rig_ok s' = true
        ∧ camera_unchanged s s' ∧ constants_unchanged s s' ∧ mouse s' = mouse s.
Proof.
  intros Hok.
  assert (Hs : is_Some (targetPos s) ∧ is_Some (originPos s)).
  { apply rig_ok_spec in Hok. tauto. }
  destruct Hs as [[t Ht] [o Ho]].
  destruct (Qlt_le_dec 0 (deltaY e)) as [Hpos|Hle].
  - destruct (handleWheel_down e s t Hok Ht Hpos) as (s' & ? & ? & ? & ? & ? & ?).
    by exists s'.
  - destruct (Qlt_le_dec (deltaY e) 0) as [Hneg|Hge].
    + destruct (handleWheel_up e s o Hok Ho Hneg) as (s' & ? & ? & ? & ? & ? & ?).
      by exists s'.
    + exists s. split; [apply handleWheel_zero; lra|]. by repeat split.
Qed.


(** * The properties of the camera rig *)

(** C8: a wheel event whose deltaY is exactly zero changes nothing: the
    handler takes neither branch and the state of the rig, target included,
    is the same after the event as before it. *)
Theorem wheel_zero_noop (s : Rig) (e : WheelEvent) :
  deltaY e == 0 → handleWheel e s = Some s ∧ step (Wheel e) s = Some s.
Proof. intros Hz. split; by apply handleWheel_zero. Qed.

Lemma wheel_zero_noop_witness :
  deltaY (mkWheelEvent 0) == 0
  ∧ handleWheel (mkWheelEvent 0) viewer_scrolled = Some viewer_scrolled.
Proof.
  split; [reflexivity|].
  apply (wheel_zero_noop viewer_scrolled (mkWheelEvent 0)). reflexivity.
Defined.

(** C3: a wheel event with negative deltaY makes the target exactly the
    origin position, whatever the target was; the camera's own position and
    rotation are not written.  In the mounted scene the origin position is
    (7, 0.75, 1). *)
Theorem wheel_up_resets_target (e : WheelEvent) :
  deltaY e < 0 →
  (∀ (s : Rig) (o : Vector3.t),
      rig_ok s = true → originPos s = Some o →
      ∃ s', handleWheel e s = Some s' ∧ targetPos s' = Some o
            ∧ originPos s' = Some o ∧ camera_unchanged s s')
  ∧ (∀ (rot0 : Euler.t) (sz : Size.t) (evs : list event),
      ∃ s0 s s', Scene rot0 sz = Some s0 ∧ run evs s0 = Some s
                 ∧ handleWheel e s = Some s'
                 ∧ targetPos s' = Some (Vector3.mk 7 0.75 1)
                 ∧ camera_unchanged s s').
Proof.
  intros Hneg. split.
  - intros s o Hok Ho.
    destruct (handleWheel_up e s o Hok Ho Hneg) as (s' & Hs' & Ht' & _ & Hcam & (_ & _ & Ho') & _).
    exists s'. repeat split; try done; try apply Hcam. congruence.
  - intros rot0 sz evs.
    destruct (reachable_inv rot0 sz evs) as (s0 & s & Hs0 & Hrun & Hinv).
    destruct (handleWheel_up e s origin (inv_ok _ _ _ Hinv) (inv_origin _ _ _ Hinv) Hneg)
      as (s' & Hs' & Ht' & _ & Hcam & _).
    by exists s0, s, s'.
Qed.

Lemma wheel_up_resets_target_witness :
  deltaY (mkWheelEvent (-1)) < 0
  ∧ rig_ok viewer_scrolled = true
  ∧ originPos viewer_scrolled = Some origin
  ∧ ∃ s', handleWheel (mkWheelEvent (-1)) viewer_scrolled = Some s'
          ∧ targetPos s' = Some origin
          ∧ originPos s' = Some origin ∧ camera_unchanged viewer_scrolled s'.
Proof.
  assert (Hneg : deltaY (mkWheelEvent (-1)) < 0) by reflexivity.
  assert (Hok : rig_ok viewer_scrolled = true) by (vm_compute; reflexivity).
  assert (Ho : originPos viewer_scrolled = Some origin) by (vm_compute; reflexivity).
  repeat split; try done.
  exact (proj1 (wheel_up_resets_target (mkWheelEvent (-1)) Hneg) viewer_scrolled origin Hok Ho).
Defined.

(** C9: the event handlers never write the camera.  For every pointer-move
    event and every wheel event the camera's position and rotation are the
    same objects with the same contents afterwards; a pointer move replaces
    only the pointer state, a wheel event only the target. *)
Theorem handlers_leave_camera (s : Rig) :
  rig_ok s = true →
  (∀ e : PointerEvent,
      camera_unchanged s (handlePointerMove e s)
      ∧ constants_unchanged s (handlePointerMove e s)
      ∧ targetPos (handlePointerMove e s) = targetPos s)
  ∧ (∀ e : WheelEvent,
      ∃ s', handleWheel e s = Some s' ∧ camera_unchanged s s'
            ∧ constants_unchanged s s' ∧ mouse s' = mouse s).
Proof.
  intros Hok. split.
  - intros e. by repeat split.
  - intros e.
    destruct (handleWheel_any e s Hok) as (s' & Hs' & _ & Hcam & Hconst & Hm).
    by exists s'.
Qed.

Lemma handlers_leave_camera_witness :
  rig_ok viewer_scrolled = true
  ∧ position (handlePointerMove (mkPointerEvent 200 450) viewer_scrolled)
    = position viewer_scrolled
  ∧ ∃ s', handleWheel (mkWheelEvent 3) viewer_scrolled = Some s'
          ∧ camera_unchanged viewer_scrolled s'.
Proof.
  assert (Hok : rig_ok viewer_scrolled = true) by (vm_compute; reflexivity).
  destruct (handlers_leave_camera viewer_scrolled Hok) as [Hmove Hwheel].
  split; [exact Hok|]. split.
  - destruct (Hmove (mkPointerEvent 200 450)) as [(_ & _ & Hp & _) _]. exact Hp.
  - destruct (Hwheel (mkWheelEvent 3)) as (s' & Hs' & Hcam & _). by exists s'.
Defined.

(** C10: the roll of the camera is never written.  After any sequence of
    pointer-move events, wheel events and frames of the mounted scene,
    camera.rotation.z is the z of the rotation the camera had at mount,
    which is the z of the stored baseline. *)
Theorem roll_is_never_written (rot0 : Euler.t) (sz : Size.t) (evs : list event) :
  ∃ s0 s r, Scene rot0 sz = Some s0 ∧ run evs s0 = Some s
            ∧ rotation s = Some r ∧ Euler.z r = Euler.z rot0
            ∧ rotationBaseline s = Some rot0.
Proof.
  destruct (reachable_inv rot0 sz evs) as (s0 & s & Hs0 & Hrun & Hinv).
  destruct (inv_roll _ _ _ Hinv) as (r & Hr & Hz).
  exists s0, s, r. repeat split; try done. apply (inv_baseline _ _ _ Hinv).
Qed.


(** C4: the frame sets rotation.y = baseline.y - pointer.x * 0.035 and
    rotation.x = baseline.x - pointer.y * 0.025, from the pointer state and
    the baseline alone; the baseline and the pointer state are left as they
    were, so a second frame yields the same rotation as the first; and with
    the pointer at (0, 0) the rotation equals the baseline (its z being the
    one the camera already had). *)
Theorem rotation_from_baseline (s : Rig) (r0 : Euler.t) :
  rig_ok s = true → rotationBaseline s = Some r0 →
  ∃ s1 r1,
    useFrame s = Some s1 ∧ rotation s1 = Some r1
    ∧ Euler.y r1 = Euler.y r0 - Mouse.x (mouse s) * 0.035
    ∧ Euler.x r1 = Euler.x r0 - Mouse.y (mouse s) * 0.025
    ∧ rotationBaseline s1 = Some r0 ∧ mouse s1 = mouse s
    ∧ (∃ s2, useFrame s1 = Some s2 ∧ rotation s2 = Some r1)
    ∧ (Mouse.x (mouse s) == 0 → Mouse.y (mouse s) == 0 →
       Euler.x r1 == Euler.x r0 ∧ Euler.y r1 == Euler.y r0
       ∧ ∀ r, rotation s = Some r → Euler.z r = Euler.z r0 → Euler.equals r1 r0).
Proof.
  intros Hok Hb.
  assert (Hs : is_Some (rotation s) ∧ is_Some (position s) ∧ is_Some (targetPos s)).
  { apply rig_ok_spec in Hok. tauto. }
  destruct Hs as ([r Hr] & [p Hp] & [t Ht]).
  destruct (useFrame_spec s r0 r p t Hok Hb Hr Hp Ht)
    as (s1 & Hs1 & Hr1 & Hp1 & Ht1 & Hok1 & (_ & Hb1 & _) & Hm1).
  rewrite Hb in Hb1.
  destruct (useFrame_spec s1 r0 _ _ t Hok1 Hb1 Hr1 Hp1 Ht1)
    as (s2 & Hs2 & Hr2 & _).
  exists s1. eexists. split; [exact Hs1|]. split; [exact Hr1|]. simpl.
  repeat split; try done.
  - exists s2. split; [done|]. by rewrite Hr2, Hm1.
  - lra.
  - lra.
  - simpl; lra.
  - simpl; lra.
  - simpl. congruence.
Qed.

Lemma rotation_from_baseline_witness :
  rig_ok viewer_scrolled = true
  ∧ rotationBaseline viewer_scrolled = Some viewer_rot0
  ∧ ∃ s1 r1, useFrame viewer_scrolled = Some s1 ∧ rotation s1 = Some r1
             ∧ Euler.equals r1 viewer_rot0.
Proof.
  assert (Hok : rig_ok viewer_scrolled = true) by (vm_compute; reflexivity).
  assert (Hb : rotationBaseline viewer_scrolled = Some viewer_rot0)
    by (vm_compute; reflexivity).
  split; [exact Hok|]. split; [exact Hb|].
  destruct (rotation_from_baseline viewer_scrolled viewer_rot0 Hok Hb)
    as (s1 & r1 & Hs1 & Hr1 & _ & _ & _ & _ & _ & Hzero).
  exists s1, r1. split; [exact Hs1|]. split; [exact Hr1|].
  destruct Hzero as (_ & _ & Heq); [reflexivity|reflexivity|].
  apply (Heq viewer_rot0); reflexivity.
Defined.

(** C5: a pointer-move event replaces the pointer state by
    ((clientX / width) * 2 - 1, (clientY / height) * 2 - 1), whatever it was
    before; for a viewport of positive size, clientX in [0, width] gives an x
    in [-1, 1], with clientX = 0 giving -1 and clientX = width giving 1, and
    the same holds for clientY, height and y. *)
Theorem pointer_move_normalises (s : Rig) (e : PointerEvent) :
  0 < Size.width (size s) → 0 < Size.height (size s) →
  mouse (handlePointerMove e s)
  = Mouse.mk ((clientX e / Size.width (size s)) * 2 - 1)
             ((clientY e / Size.height (size s)) * 2 - 1)
  ∧ (∀ m : Mouse.t, handlePointerMove e (setMouse m s) = handlePointerMove e s)
  ∧ (0 <= clientX e <= Size.width (size s) →
     -1 <= Mouse.x (mouse (handlePointerMove e s)) <= 1)
  ∧ (clientX e == 0 → Mouse.x (mouse (handlePointerMove e s)) == -1)
  ∧ (clientX e == Size.width (size s) → Mouse.x (mouse (handlePointerMove e s)) == 1)
  ∧ (0 <= clientY e <= Size.height (size s) →
     -1 <= Mouse.y (mouse (handlePointerMove e s)) <= 1)
  ∧ (clientY e == 0 → Mouse.y (mouse (handlePointerMove e s)) == -1)
  ∧ (clientY e == Size.height (size s) → Mouse.y (mouse (handlePointerMove e s)) == 1).
Proof.
  intros Hw Hh. simpl.
  split; [reflexivity|]. split; [reflexivity|].
  split; [by apply normalise_range|]. split; [by apply normalise_lo|].
  split; [by apply normalise_hi|].
  split; [by apply normalise_range|]. split; [by apply normalise_lo|].
  by apply normalise_hi.
Qed.

Lemma pointer_move_normalises_witness :
  0 < Size.width (size viewer) ∧ 0 < Size.height (size viewer)
  ∧ Mouse.x (mouse (handlePointerMove (mkPointerEvent 800 0) viewer)) == 1
  ∧ Mouse.y (mouse (handlePointerMove (mkPointerEvent 800 0) viewer)) == -1
  ∧ -1 <= Mouse.x (mouse (handlePointerMove (mkPointerEvent 800 0) viewer)) <= 1.
Proof.
  assert (Hw : 0 < Size.width (size viewer)) by reflexivity.
  assert (Hh : 0 < Size.height (size viewer)) by reflexivity.
  destruct (pointer_move_normalises viewer (mkPointerEvent 800 0) Hw Hh)
    as (_ & _ & Hrange & _ & Hhi & _ & Hlo & _).
  split; [exact Hw|]. split; [exact Hh|].
  split; [apply Hhi; reflexivity|].
  split; [apply Hlo; reflexivity|].
  apply Hrange. split; discriminate.
Defined.

(** C7, as the claim states it, fails: the handler does not clamp, so a
    pointer-move event whose clientX is beyond the viewport width (here 1000
    on a viewport 800 wide) leaves pointer.x = 1.5, outside [-1, 1]. *)
Lemma pointer_out_of_range :
  ¬ (∀ (s : Rig) (e : PointerEvent),
        0 < Size.width (size s) → 0 < Size.height (size s) →
        (-1 <= Mouse.x (mouse (handlePointerMove e s)) <= 1)
        ∧ (-1 <= Mouse.y (mouse (handlePointerMove e s)) <= 1)).
Proof.
  intros H.
  destruct (H viewer (mkPointerEvent 1000 300)) as [[_ Hx] _];
    [reflexivity|reflexivity|].
  vm_compute in Hx. by apply Hx.
Qed.

(** C7, amended: for a viewport of positive size, the pointer state after a
    pointer-move event has its x in [-1, 1] exactly when clientX is in
    [0, width], and its y in [-1, 1] exactly when clientY is in
    [0, height]. *)
Theorem pointer_in_range_iff (s : Rig) (e : PointerEvent) :
  0 < Size.width (size s) → 0 < Size.height (size s) →
  (-1 <= Mouse.x (mouse (handlePointerMove e s)) <= 1
   ↔ 0 <= clientX e <= Size.width (size s))
  ∧ (-1 <= Mouse.y (mouse (handlePointerMove e s)) <= 1
     ↔ 0 <= clientY e <= Size.height (size s)).
Proof. intros Hw Hh. simpl. split; by apply normalise_range. Qed.

Lemma pointer_in_range_iff_witness :
  0 < Size.width (size viewer) ∧ 0 < Size.height (size viewer)
  ∧ -1 <= Mouse.x (mouse (handlePointerMove (mkPointerEvent 200 450) viewer)) <= 1
  ∧ -1 <= Mouse.y (mouse (handlePointerMove (mkPointerEvent 200 450) viewer)) <= 1.
Proof.
  assert (Hw : 0 < Size.width (size viewer)) by reflexivity.
  assert (Hh : 0 < Size.height (size viewer)) by reflexivity.
  destruct (pointer_in_range_iff viewer (mkPointerEvent 200 450) Hw Hh) as [Hx Hy].
  split; [exact Hw|]. split; [exact Hh|].
  split; [apply Hx|apply Hy]; split; discriminate.
Defined.





(** ** Scenarios of the specification *)

(** Viewport 800 x 600, pointer at (400, 300): the pointer state is (0, 0)
    and the next frame leaves the rotation equal to the baseline. *)
Lemma pointer_at_centre (rot0 : Euler.t) (evs : list event) :
  ∃ s0 s r,
    Scene rot0 (Size.mk 800 600) = Some s0
    ∧ run (evs ++ [PointerMove (mkPointerEvent 400 300); Frame]) s0 = Some s
    ∧ Mouse.x (mouse s) == 0 ∧ Mouse.y (mouse s) == 0
    ∧ rotation s = Some r ∧ Euler.equals r rot0.
Proof.
  destruct (reachable_inv rot0 (Size.mk 800 600) evs) as (s0 & s1 & Hs0 & Hrun & Hinv).
  destruct Hinv as [Hok Hsz Hb _ (r & Hr & Hz) _].
  set (s2 := handlePointerMove (mkPointerEvent 400 300) s1).
  assert (Hm : Mouse.x (mouse s2) == 0 ∧ Mouse.y (mouse s2) == 0).
  { unfold s2. simpl. rewrite Hsz. simpl. split; reflexivity. }
  destruct (rotation_baseline_frame s2 rot0 r) as (s3 & r3 & Hs3 & Hr3 & Hm3 & Heq);
    try done.
  exists s0, s3, r3. rewrite run_app, Hrun. simpl. fold s2. rewrite Hs3, Hm3.
  split; [done|]. split; [done|]. split; [apply Hm|]. split; [apply Hm|].
  split; [done|]. by apply Heq.
Qed.

(** In binary64 the three scroll steps from 0.75 land on the float written
    1.05, as in the exact model; a fourth step does not land on the float
    written 1.15 but on its successor. *)
Lemma binary64_three_steps :
  PrimFloat.eqb (Binary64.scroll_steps 3 Binary64.lit_0_75) Binary64.lit_1_05 = true.
Proof. vm_compute. reflexivity. Qed.

Lemma binary64_four_steps :
  PrimFloat.eqb (Binary64.scroll_steps 4 Binary64.lit_0_75) Binary64.lit_1_15 = false
  ∧ PrimFloat.eqb (Binary64.scroll_steps 4 Binary64.lit_0_75)
                  (PrimFloat.next_up Binary64.lit_1_15) = true.
Proof. split; vm_compute; reflexivity. Qed.

(** * Further properties of the component *)

(** ** The handlers in closed form *)

Lemma useFrame_explicit (s : Rig) (r0 r : Euler.t) (p t : Vector3.t) :
  rig_ok s = true →
  rotationBaseline s = Some r0 → rotation s = Some r →
  position s = Some p → targetPos s = Some t →
  useFrame s
  = Some (set_vectors
            (<[camera_position s := Vector3.lerp p t 0.02]> (vectors s))
            (set_eulers
               (<[camera_rotation s :=
                    Euler.mk (Euler.x r0 - Mouse.y (mouse s) * 0.025)
                             (Euler.y r0 - Mouse.x (mouse s) * 0.035)
                             (Euler.z r)]> (eulers s))
               s)).
Proof.
  intros Hok Hb Hr Hp Ht.
  apply rig_ok_spec in Hok as (_ & Hne1 & _).
  unfold position, rotation, rotationBaseline, targetPos in *.
  unfold useFrame. rewrite Hb, Hr. simpl.
  rewrite lookup_insert_eq, lookup_insert_ne, Hb by done. simpl.
  rewrite Ht, Hp. simpl. rewrite insert_insert_eq. reflexivity.
Qed.

Lemma handleWheel_down_explicit (e : WheelEvent) (s : Rig) (t : Vector3.t) :
  targetPos s = Some t → 0 < deltaY e →
  handleWheel e s
  = Some (set_targetCameraPos (fresh (dom (vectors s)))
            (set_vectors
               (<[fresh (dom (vectors s)) :=
                    Vector3.mk (Vector3.x t) (Vector3.y t + 0.1) (Vector3.z t)]>
                  (vectors s))
               s)).
Proof.
  intros Ht Hpos. unfold targetPos in Ht. unfold handleWheel.
  destruct (Qlt_le_dec 0 (deltaY e)) as [_|Hle]; [|lra].
  unfold clone, alloc. rewrite Ht. simpl. rewrite lookup_insert_eq. simpl.
  rewrite insert_insert_eq. reflexivity.
Qed.

Lemma handleWheel_up_explicit (e : WheelEvent) (s : Rig) (o : Vector3.t) :
  originPos s = Some o → deltaY e < 0 →
  handleWheel e s
  = Some (set_targetCameraPos (fresh (dom (vectors s)))
            (set_vectors (<[fresh (dom (vectors s)) := o]> (vectors s)) s)).
Proof.
  intros Ho Hneg. unfold originPos in Ho. unfold handleWheel.
  destruct (Qlt_le_dec 0 (deltaY e)) as [Hlt|_]; [lra|].
  destruct (Qlt_le_dec (deltaY e) 0) as [_|Hle]; [|lra].
  unfold clone, alloc. rewrite Ho. reflexivity.
Qed.

(** Every part of a well-formed state that the handlers read. *)
Lemma rig_ok_parts (s : Rig) :
  rig_ok s = true →
  ∃ p r r0 t o, position s = Some p ∧ rotation s = Some r
                ∧ rotationBaseline s = Some r0 ∧ targetPos s = Some t
                ∧ originPos s = Some o.
Proof.
  intros Hok. apply rig_ok_spec in Hok as (([p ?] & [r ?] & [r0 ?] & [t ?] & [o ?]) & _).
  by exists p, r, r0, t, o.
Qed.

(** ** What each step writes *)

(** X1: a frame writes two objects and nothing else: the camera's position
    and the camera's rotation.  Every other vector and every other Euler in
    the stores, the target reference, the pointer state and the viewport are
    as before, and no object is created. *)
Theorem frame_writes_camera_only (s : Rig) :
  rig_ok s = true →
  ∃ s', useFrame s = Some s'
    ∧ (∀ l, l ≠ camera_position s → vectors s' !! l = vectors s !! l)
    ∧ (∀ l, l ≠ camera_rotation s → eulers s' !! l = eulers s !! l)
    ∧ dom (vectors s') = dom (vectors s) ∧ dom (eulers s') = dom (eulers s)
    ∧ targetCameraPos s' = targetCameraPos s ∧ targetPos s' = targetPos s
    ∧ mouse s' = mouse s ∧ constants_unchanged s s'.
Proof.
  intros Hok.
  destruct (rig_ok_parts s Hok) as (p & r & r0 & t & o & Hp & Hr & Hb & Ht & Ho).
  pose proof Hok as Hok'.
  apply rig_ok_spec in Hok' as (_ & Hne1 & Hne2 & Hne3 & Hne4).
  eexists. split; [exact (useFrame_explicit s r0 r p t Hok Hb Hr Hp Ht)|].
  unfold constants_unchanged, targetPos, rotationBaseline, originPos,
    position, rotation in *. simpl.
  split; [intros l Hl; by rewrite lookup_insert_ne|].
  split; [intros l Hl; by rewrite lookup_insert_ne|].
  split.
  { apply dom_insert_lookup_L. by rewrite Hp. }
  split.
  { apply dom_insert_lookup_L. by rewrite Hr. }
  rewrite !lookup_insert_ne by done. done.
Qed.

Lemma frame_writes_camera_only_witness :
  rig_ok viewer_scrolled = true
  ∧ ∃ s', useFrame viewer_scrolled = Some s'
          ∧ targetPos s' = targetPos viewer_scrolled
          ∧ dom (vectors s') = dom (vectors viewer_scrolled).
Proof.
  assert (Hok : rig_ok viewer_scrolled = true) by (vm_compute; reflexivity).
  split; [exact Hok|].
  destruct (frame_writes_camera_only viewer_scrolled Hok)
    as (s' & Hs' & _ & _ & Hdom & _ & _ & Ht & _).
  by exists s'.
Defined.

(** X2: a wheel event with a non-zero deltaY creates exactly one vector, the
    new target, and writes no object that existed before: every vector and
    every Euler already in the stores keeps its fields, so a reference to an
    earlier target still sees the value it had. *)
Theorem wheel_allocates_target (s : Rig) (e : WheelEvent) :
  rig_ok s = true → ¬ deltaY e == 0 →
  ∃ s', handleWheel e s = Some s'
    ∧ (targetCameraPos s' ∉ dom (vectors s))
    ∧ dom (vectors s') = {[targetCameraPos s']} ∪ dom (vectors s)
    ∧ (∀ l, l ∈ dom (vectors s) → vectors s' !! l = vectors s !! l)
    ∧ eulers s' = eulers s.
Proof.
  intros Hok Hnz.
  destruct (rig_ok_parts s Hok) as (p & r & r0 & t & o & Hp & Hr & Hb & Ht & Ho).
  assert (Hfresh : fresh (dom (vectors s)) ∉ dom (vectors s)) by apply is_fresh.
  assert (Hold : ∀ (v : Vector3.t) l, l ∈ dom (vectors s) →
            <[fresh (dom (vectors s)) := v]> (vectors s) !! l = vectors s !! l).
  { intros v l Hl. apply lookup_insert_ne. by intros <-. }
  destruct (Qlt_le_dec 0 (deltaY e)) as [Hpos|Hle].
  - eexists. split; [exact (handleWheel_down_explicit e s t Ht Hpos)|]. simpl.
    split; [done|]. split; [apply dom_insert_L|]. split; [apply Hold|done].
  - assert (Hneg : deltaY e < 0).
    { apply Qle_lteq in Hle as [Hlt|Heq]; [done|by destruct Hnz]. }
    eexists. split; [exact (handleWheel_up_explicit e s o Ho Hneg)|]. simpl.
    split; [done|]. split; [apply dom_insert_L|]. split; [apply Hold|done].
Qed.

Lemma wheel_allocates_target_witness :
  rig_ok viewer_scrolled = true ∧ ¬ deltaY (mkWheelEvent (-2)) == 0
  ∧ ∃ s', handleWheel (mkWheelEvent (-2)) viewer_scrolled = Some s'
          ∧ (targetCameraPos s' ∉ dom (vectors viewer_scrolled))
          ∧ vectors s' !! 4%positive = vectors viewer_scrolled !! 4%positive.
Proof.
  assert (Hok : rig_ok viewer_scrolled = true) by (vm_compute; reflexivity).
  assert (Hnz : ¬ deltaY (mkWheelEvent (-2)) == 0) by (intros H; discriminate H).
  split; [exact Hok|]. split; [exact Hnz|].
  destruct (wheel_allocates_target viewer_scrolled (mkWheelEvent (-2)) Hok Hnz)
    as (s' & Hs' & Hnew & _ & Hold & _).
  exists s'. split; [exact Hs'|]. split; [exact Hnew|].
  apply Hold. apply elem_of_dom. vm_compute. eauto.
Defined.

(** ** The two input channels do not interfere *)

Lemma step_ok (ev : event) (s : Rig) :
  rig_ok s = true → ∃ s', step ev s = Some s' ∧ rig_ok s' = true.
Proof.
  intros Hok. destruct ev as [e|e|]; simpl.
  - by exists (handlePointerMove e s).
  - destruct (handleWheel_any e s Hok) as (s' & ? & ? & _). by exists s'.
  - destruct (rig_ok_parts s Hok) as (p & r & r0 & t & o & Hp & Hr & Hb & Ht & Ho).
    destruct (useFrame_spec s r0 r p t Hok Hb Hr Hp Ht) as (s' & ? & _ & _ & _ & ? & _).
    by exists s'.
Qed.

(** One step of a wheel event or a frame, seen from the vectors alone. *)
Lemma step_same_positions (ev : event) (s s' s1 s2 : Rig) :
  rig_ok s = true → rig_ok s' = true → same_positions s s' →
  is_pointer ev = false →
  step ev s = Some s1 → step ev s' = Some s2 → same_positions s1 s2.
Proof.
  intros Hok Hok' (Hv & Hcp & Htp & Hop) Hev H1 H2.
  destruct (rig_ok_parts s Hok) as (p & r & r0 & t & o & Hp & Hr & Hb & Ht & Ho).
  destruct (rig_ok_parts s' Hok') as (p' & r' & r0' & t' & o' & Hp' & Hr' & Hb' & Ht' & Ho').
  assert (p' = p ∧ t' = t ∧ o' = o) as (-> & -> & ->).
  { unfold position, targetPos, originPos in *.
    rewrite <- Hv, <- Hcp, <- Htp, <- Hop in *. repeat split; congruence. }
  destruct ev as [e|e|]; simpl in *; [done| |].
  - destruct (Qlt_le_dec 0 (deltaY e)) as [Hpos|Hle].
    + rewrite (handleWheel_down_explicit e s t Ht Hpos) in H1.
      rewrite (handleWheel_down_explicit e s' t Ht' Hpos) in H2.
      injection H1 as <-. injection H2 as <-.
      unfold same_positions; simpl. by rewrite <- Hv.
    + destruct (Qlt_le_dec (deltaY e) 0) as [Hneg|Hge].
      * rewrite (handleWheel_up_explicit e s o Ho Hneg) in H1.
        rewrite (handleWheel_up_explicit e s' o Ho' Hneg) in H2.
        injection H1 as <-. injection H2 as <-.
        unfold same_positions; simpl. by rewrite <- Hv.
      * rewrite handleWheel_zero in H1, H2 by lra.
        injection H1 as <-. injection H2 as <-. done.
  - rewrite (useFrame_explicit s r0 r p t Hok Hb Hr Hp Ht) in H1.
    rewrite (useFrame_explicit s' r0' r' p t Hok' Hb' Hr' Hp' Ht') in H2.
    injection H1 as <-. injection H2 as <-.
    unfold same_positions; simpl. by rewrite <- Hv, <- Hcp.
Qed.

Lemma run_without_pointer (evs : list event) (s s' : Rig) :
  rig_ok s = true → rig_ok s' = true → same_positions s s' →
  ∃ s1 s2, run evs s = Some s1 ∧ run (without_pointer evs) s' = Some s2
           ∧ same_positions s1 s2.
Proof.
  revert s s'. induction evs as [|ev evs IH]; intros s s' Hok Hok' Hsame.
  - by exists s, s'.
  - destruct (step_ok ev s Hok) as (s1 & Hs1 & Hok1).
    unfold without_pointer in *. simpl. rewrite Hs1. simpl.
    destruct (is_pointer ev) eqn:Hev; simpl.
    + apply (IH s1 s'); [done..|].
      destruct ev; try discriminate. simpl in Hs1. by injection Hs1 as <-.
    + destruct (step_ok ev s' Hok') as (s2 & Hs2 & Hok2).
      rewrite Hs2. simpl. apply (IH s1 s2); [done..|].
      by apply (step_same_positions ev s s').
Qed.

(** X3: pointer input never reaches the camera position.  A run and the
    same run with its pointer-move events removed end with the same vectors
    behind the same references: same camera position, same target. *)
Theorem pointer_never_moves_camera (s : Rig) (evs : list event) :
  rig_ok s = true →
  ∃ s1 s2, run evs s = Some s1 ∧ run (without_pointer evs) s = Some s2
           ∧ same_positions s1 s2
           ∧ position s1 = position s2 ∧ targetPos s1 = targetPos s2.
Proof.
  intros Hok.
  destruct (run_without_pointer evs s s Hok Hok) as (s1 & s2 & H1 & H2 & Hsame);
    [done|].
  exists s1, s2. repeat split; try done; try apply Hsame.
  - destruct Hsame as (Hv & Hcp & _). unfold position. by rewrite Hv, Hcp.
  - destruct Hsame as (Hv & _ & Htp & _). unfold targetPos. by rewrite Hv, Htp.
Qed.

Lemma pointer_never_moves_camera_witness :
  rig_ok viewer = true
  ∧ ∃ s1 s2,
      run [Wheel (mkWheelEvent 1); PointerMove (mkPointerEvent 10 20); Frame] viewer
      = Some s1
      ∧ run [Wheel (mkWheelEvent 1); Frame] viewer = Some s2
      ∧ position s1 = position s2.
Proof.
  assert (Hok : rig_ok viewer = true) by (vm_compute; reflexivity).
  split; [exact Hok|].
  destruct (pointer_never_moves_camera viewer
              [Wheel (mkWheelEvent 1); PointerMove (mkPointerEvent 10 20); Frame] Hok)
    as (s1 & s2 & H1 & H2 & _ & Hp & _).
  by exists s1, s2.
Defined.

(** One step of a pointer move or a frame, seen from the rotations alone. *)
Lemma step_same_rotations (ev : event) (s s' s1 s2 : Rig) :
  rig_ok s = true → rig_ok s' = true → same_rotations s s' →
  is_wheel ev = false →
  step ev s = Some s1 → step ev s' = Some s2 → same_rotations s1 s2.
Proof.
  intros Hok Hok' (He & Hcr & Hir & Hm & Hsz) Hev H1 H2.
  destruct (rig_ok_parts s Hok) as (p & r & r0 & t & o & Hp & Hr & Hb & Ht & Ho).
  destruct (rig_ok_parts s' Hok') as (p' & r' & r0' & t' & o' & Hp' & Hr' & Hb' & Ht' & Ho').
  assert (r' = r ∧ r0' = r0) as (-> & ->).
  { unfold rotation, rotationBaseline in *.
    rewrite <- He, <- Hcr, <- Hir in *. split; congruence. }
  destruct ev as [e|e|]; simpl in *; [|done|].
  - injection H1 as <-. injection H2 as <-.
    unfold same_rotations; simpl. by rewrite <- Hsz.
  - rewrite (useFrame_explicit s r0 r p t Hok Hb Hr Hp Ht) in H1.
    rewrite (useFrame_explicit s' r0 r p' t' Hok' Hb' Hr' Hp' Ht') in H2.
    injection H1 as <-. injection H2 as <-.
    unfold same_rotations; simpl. by rewrite <- He, <- Hcr, <- Hm.
Qed.

(** A wheel event leaves everything the rotation depends on. *)
Lemma wheel_same_rotations (e : WheelEvent) (s s1 : Rig) :
  rig_ok s = true → handleWheel e s = Some s1 → same_rotations s1 s.
Proof.
  intros Hok H1.
  destruct (rig_ok_parts s Hok) as (p & r & r0 & t & o & Hp & Hr & Hb & Ht & Ho).
  destruct (Qlt_le_dec 0 (deltaY e)) as [Hpos|Hle].
  - rewrite (handleWheel_down_explicit e s t Ht Hpos) in H1. by injection H1 as <-.
  - destruct (Qlt_le_dec (deltaY e) 0) as [Hneg|Hge].
    + rewrite (handleWheel_up_explicit e s o Ho Hneg) in H1. by injection H1 as <-.
    + rewrite handleWheel_zero in H1 by lra. by injection H1 as <-.
Qed.

Lemma run_without_wheel (evs : list event) (s s' : Rig) :
  rig_ok s = true → rig_ok s' = true → same_rotations s s' →
  ∃ s1 s2, run evs s = Some s1 ∧ run (without_wheel evs) s' = Some s2
           ∧ same_rotations s1 s2.
Proof.
  revert s s'. induction evs as [|ev evs IH]; intros s s' Hok Hok' Hsame.
  - by exists s, s'.
  - destruct (step_ok ev s Hok) as (s1 & Hs1 & Hok1).
    unfold without_wheel in *. simpl. rewrite Hs1. simpl.
    destruct (is_wheel ev) eqn:Hev; simpl.
    + apply (IH s1 s'); [done..|].
      destruct ev as [|e|]; try discriminate. simpl in Hs1.
      pose proof (wheel_same_rotations e s s1 Hok Hs1) as (? & ? & ? & ? & ?).
      destruct Hsame as (? & ? & ? & ? & ?).
      repeat split; congruence.
    + destruct (step_ok ev s' Hok') as (s2 & Hs2 & Hok2).
      rewrite Hs2. simpl. apply (IH s1 s2); [done..|].
      by apply (step_same_rotations ev s s').
Qed.

(** X4: scroll input never reaches the camera rotation.  A run and the same
    run with its wheel events removed end with the same Eulers behind the
    same references and the same pointer state: same camera rotation. *)
Theorem wheel_never_turns_camera (s : Rig) (evs : list event) :
  rig_ok s = true →
  ∃ s1 s2, run evs s = Some s1 ∧ run (without_wheel evs) s = Some s2
           ∧ same_rotations s1 s2 ∧ rotation s1 = rotation s2.
Proof.
  intros Hok.
  destruct (run_without_wheel evs s s Hok Hok) as (s1 & s2 & H1 & H2 & Hsame);
    [done|].
  exists s1, s2. repeat split; try done; try apply Hsame.
  destruct Hsame as (He & Hcr & _). unfold rotation. by rewrite He, Hcr.
Qed.

Lemma wheel_never_turns_camera_witness :
  rig_ok viewer = true
  ∧ ∃ s1 s2,
      run [PointerMove (mkPointerEvent 10 20); Wheel (mkWheelEvent 1); Frame] viewer
      = Some s1
      ∧ run [PointerMove (mkPointerEvent 10 20); Frame] viewer = Some s2
      ∧ rotation s1 = rotation s2.
Proof.
  assert (Hok : rig_ok viewer = true) by (vm_compute; reflexivity).
  split; [exact Hok|].
  destruct (wheel_never_turns_camera viewer
              [PointerMove (mkPointerEvent 10 20); Wheel (mkWheelEvent 1); Frame] Hok)
    as (s1 & s2 & H1 & H2 & _ & Hr).
  by exists s1, s2.
Defined.

(** ** The easing in closed form *)

(** A camera on the target is left there by every frame. *)
Lemma iter_lerp_rest (n : nat) (p t : Vector3.t) :
  Vector3.equals p t →
  Vector3.equals (Nat.iter n (λ q, Vector3.lerp q t 0.02) p) t.
Proof.
  intros Heq. induction n as [|n IH]; simpl; [done|].
  destruct IH as (Hx & Hy & Hz). unfold Vector3.equals. simpl.
  repeat split; lra.
Qed.

(** X5: after n frames with the target at rest the Euclidean distance of the
    camera to the target is exactly 0.98^n times the initial one, whether or
    not the camera started on the target; a camera that is on the target
    stays on it. *)
Theorem frames_closed_form (s : Rig) (p t : Vector3.t) (n : nat) :
  rig_ok s = true → position s = Some p → targetPos s = Some t →
  ∃ sn pn, run (frames n) s = Some sn ∧ position sn = Some pn
           ∧ targetPos sn = Some t
           ∧ (Vector3.distanceTo pn t = 0.98 ^ n * Vector3.distanceTo p t)%R
           ∧ (Vector3.equals p t → Vector3.equals pn t).
Proof.
  intros Hok Hp Ht.
  destruct (frames_spec n s p t Hok Hp Ht) as (sn & Hrun & Hpn & Htn & _).
  exists sn. eexists. split; [exact Hrun|]. split; [exact Hpn|]. split; [exact Htn|].
  split; [apply iter_lerp_distanceTo|].
  apply iter_lerp_rest.
Qed.

Lemma frames_closed_form_witness :
  rig_ok viewer = true ∧ position viewer = Some origin
  ∧ targetPos viewer = Some origin
  ∧ ∃ sn pn, run (frames 5) viewer = Some sn ∧ position sn = Some pn
             ∧ Vector3.equals pn origin.
Proof.
  assert (Hok : rig_ok viewer = true) by (vm_compute; reflexivity).
  assert (Hp : position viewer = Some origin) by (vm_compute; reflexivity).
  assert (Ht : targetPos viewer = Some origin) by (vm_compute; reflexivity).
  split; [exact Hok|]. split; [exact Hp|]. split; [exact Ht|].
  destruct (frames_closed_form viewer origin origin 5 Hok Hp Ht)
    as (sn & pn & Hrun & Hpn & _ & _ & Hrest).
  exists sn, pn. split; [exact Hrun|]. split; [exact Hpn|].
  apply Hrest. by repeat split.
Defined.

(** ** Where the camera can be *)

Lemma inject_nat_nonneg (k : nat) : 0 <= inject_Z (Z.of_nat k).
Proof. change 0 with (inject_Z 0). rewrite <- Zle_Qle. lia. Qed.

Lemma inject_nat_add (a b : nat) :
  inject_Z (Z.of_nat (a + b)) == inject_Z (Z.of_nat a) + inject_Z (Z.of_nat b).
Proof. rewrite Nat2Z.inj_add, inject_Z_plus. reflexivity. Qed.

Lemma on_vertical_mono (b b' : nat) (v : Vector3.t) :
  on_vertical b v → on_vertical (b + b') v.
Proof.
  intros (Hx & Hz & Hy). repeat split; try done; try apply Hy.
  rewrite inject_nat_add. pose proof (inject_nat_nonneg b'). lra.
Qed.

Lemma step_height_inv (b : nat) (ev : event) (s : Rig) :
  height_inv b s →
  ∃ s', step ev s = Some s'
        ∧ height_inv (b + (if scrolls_down ev then 1 else 0)) s'.
Proof.
  intros (Hok & Ho & (p & Hp & Hvp) & (t & Ht & Hvt)).
  destruct ev as [e|e|]; simpl.
  - exists (handlePointerMove e s). split; [done|].
    split; [done|]. split; [done|].
    split; [exists p|exists t]; split; try done; by apply on_vertical_mono.
  - destruct (Qlt_le_dec 0 (deltaY e)) as [Hpos|Hle].
    + destruct (handleWheel_down e s t Hok Ht Hpos)
        as (s' & Hs' & Ht' & Hok' & (_ & _ & Hp' & _) & (_ & _ & Ho') & _).
      exists s'. split; [done|]. split; [done|]. split; [congruence|].
      split.
      * exists p. split; [congruence|]. by apply on_vertical_mono.
      * eexists. split; [exact Ht'|].
        destruct Hvt as (Hx & Hz & Hy). unfold on_vertical. simpl.
        rewrite inject_nat_add. change (inject_Z (Z.of_nat 1)) with 1.
        repeat split; try done; lra.
    + destruct (Qlt_le_dec (deltaY e) 0) as [Hneg|Hge].
      * destruct (handleWheel_up e s origin Hok Ho Hneg)
          as (s' & Hs' & Ht' & Hok' & (_ & _ & Hp' & _) & (_ & _ & Ho') & _).
        exists s'. split; [done|]. split; [done|]. split; [congruence|].
        split.
        -- exists p. split; [congruence|]. by apply on_vertical_mono.
        -- exists origin. split; [done|]. unfold on_vertical. simpl.
           pose proof (inject_nat_nonneg (b + 0)). repeat split; try done; lra.
      * exists s. split; [apply handleWheel_zero; lra|].
        split; [done|]. split; [done|].
        split; [exists p|exists t]; split; try done; by apply on_vertical_mono.
  - destruct (rig_ok_parts s Hok) as (p' & r & r0 & t' & o & Hp' & Hr & Hb & Ht' & _).
    destruct (useFrame_spec s r0 r p t Hok Hb Hr Hp Ht)
      as (s' & Hs' & _ & Hp1 & Ht1 & Hok' & (_ & _ & Ho') & _).
    exists s'. split; [done|]. split; [done|]. split; [congruence|].
    split.
    + eexists. split; [exact Hp1|]. apply on_vertical_mono.
      destruct Hvp as (Hx & Hz & Hy), Hvt as (Hx' & Hz' & Hy').
      unfold on_vertical. simpl. repeat split; lra.
    + exists t. split; [done|]. by apply on_vertical_mono.
Qed.

Lemma run_height_inv (evs : list event) (b : nat) (s : Rig) :
  height_inv b s →
  ∃ s', run evs s = Some s' ∧ height_inv (b + scroll_downs evs) s'.
Proof.
  revert b s. induction evs as [|ev evs IH]; intros b s Hinv.
  - exists s. split; [done|]. unfold scroll_downs. simpl. by rewrite Nat.add_0_r.
  - destruct (step_height_inv b ev s Hinv) as (s1 & Hs1 & Hinv1).
    destruct (IH _ s1 Hinv1) as (s' & Hrun & Hinv').
    exists s'. simpl. rewrite Hs1. simpl. split; [done|].
    unfold scroll_downs in *. simpl.
    destruct (scrolls_down ev); simpl.
    + by replace (b + S (length (List.filter scrolls_down evs)))%nat
        with (b + 1 + length (List.filter scrolls_down evs))%nat by lia.
    + by rewrite Nat.add_0_r in Hinv'.
Qed.

(** X6: the camera of the mounted scene only ever moves on the vertical
    through its initial position (7, 0.75, 1): after any sequence of events
    its x is 7, its z is 1, and its y is at least 0.75 and at most
    0.75 + 0.1 * d, where d counts the wheel events with positive deltaY so
    far. *)
Theorem camera_stays_on_vertical (rot0 : Euler.t) (sz : Size.t) (evs : list event) :
  ∃ s0 s p,
    Scene rot0 sz = Some s0 ∧ run evs s0 = Some s ∧ position s = Some p
    ∧ Vector3.x p == 7 ∧ Vector3.z p == 1
    ∧ 0.75 <= Vector3.y p
    ∧ Vector3.y p <= 0.75 + 0.1 * inject_Z (Z.of_nat (scroll_downs evs)).
Proof.
  destruct (Scene_mounts rot0 sz) as (s0 & Hs0 & Hinv & Hp0 & _).
  assert (H0 : height_inv 0 s0).
  { split; [apply (inv_ok _ _ _ Hinv)|]. split; [apply (inv_origin _ _ _ Hinv)|].
    destruct (inv_target _ _ _ Hinv) as (t & k & Ht & Hx & Hz & Hy).
    assert (Ht0 : targetPos s0 = Some origin).
    { revert Hs0. vm_compute. by intros [= <-]. }
    split; [exists origin|exists origin]; (split; [done|]);
      unfold on_vertical; simpl; repeat split; try done; lra. }
  destruct (run_height_inv evs 0 s0 H0) as (s & Hrun & _ & _ & (p & Hp & Hx & Hz & Hy) & _).
  exists s0, s, p. repeat split; try done; apply Hy.
Qed.

(** ** How far the camera can turn *)

Lemma step_turn_inv (rot0 : Euler.t) (sz : Size.t) (ev : event) (s : Rig) :
  0 < Size.width sz → 0 < Size.height sz → in_viewport sz ev →
  turn_inv rot0 sz s →
  ∃ s', step ev s = Some s' ∧ turn_inv rot0 sz s'.
Proof.
  intros Hw Hh Hin (Hok & Hsz & Hb & Hmx & Hmy & (r & Hr & Hnear)).
  destruct ev as [e|e|]; simpl in *.
  - exists (handlePointerMove e s). split; [done|].
    split; [done|]. split; [done|]. split; [done|].
    simpl. rewrite Hsz. destruct Hin as [Hx Hy].
    split; [by apply normalise_range|]. split; [by apply normalise_range|].
    by exists r.
  - destruct (handleWheel_any e s Hok)
      as (s' & Hs' & Hok' & (_ & _ & _ & Hr') & (Hsz' & Hb' & _) & Hm').
    exists s'. split; [done|]. split; [done|].
    rewrite Hm'. repeat split; try congruence; try apply Hmx; try apply Hmy.
    exists r. split; [congruence|done].
  - destruct (rig_ok_parts s Hok) as (p & r' & r0' & t & o & Hp & _ & _ & Ht & _).
    destruct (useFrame_spec s rot0 r p t Hok Hb Hr Hp Ht)
      as (s' & Hs' & Hr' & _ & _ & Hok' & (Hsz' & Hb' & _) & Hm').
    exists s'. split; [done|]. split; [done|].
    rewrite Hm'. repeat split; try congruence; try apply Hmx; try apply Hmy.
    eexists. split; [exact Hr'|]. unfold near_baseline. simpl.
    repeat split; lra.
Qed.

Lemma run_turn_inv (rot0 : Euler.t) (sz : Size.t) (evs : list event) (s : Rig) :
  0 < Size.width sz → 0 < Size.height sz → Forall (in_viewport sz) evs →
  turn_inv rot0 sz s →
  ∃ s', run evs s = Some s' ∧ turn_inv rot0 sz s'.
Proof.
  intros Hw Hh. revert s. induction evs as [|ev evs IH]; intros s Hall Hinv.
  - by exists s.
  - apply Forall_cons in Hall as [Hin Hall].
    destruct (step_turn_inv rot0 sz ev s Hw Hh Hin Hinv) as (s1 & Hs1 & Hinv1).
    destruct (IH s1 Hall Hinv1) as (s' & Hrun & Hinv').
    exists s'. simpl. rewrite Hs1. by simpl.
Qed.

(** X7: in exact arithmetic, as long as every pointer-move event lies inside
    the viewport (of positive size), the camera of the mounted scene never
    turns further from its initial rotation than 0.025 in pitch (x) and 0.035
    in yaw (y), whatever the sequence of events. *)
Theorem camera_turn_is_bounded (rot0 : Euler.t) (sz : Size.t) (evs : list event) :
  0 < Size.width sz → 0 < Size.height sz → Forall (in_viewport sz) evs →
  ∃ s0 s r,
    Scene rot0 sz = Some s0 ∧ run evs s0 = Some s ∧ rotation s = Some r
    ∧ (Euler.x rot0 - 0.025 <= Euler.x r <= Euler.x rot0 + 0.025)
    ∧ (Euler.y rot0 - 0.035 <= Euler.y r <= Euler.y rot0 + 0.035).
Proof.
  intros Hw Hh Hall.
  destruct (Scene_mounts rot0 sz) as (s0 & Hs0 & Hinv & _ & Hr0 & Hm0).
  assert (H0 : turn_inv rot0 sz s0).
  { split; [apply (inv_ok _ _ _ Hinv)|]. split; [apply (inv_size _ _ _ Hinv)|].
    split; [apply (inv_baseline _ _ _ Hinv)|]. rewrite Hm0. simpl.
    split; [split; discriminate|]. split; [split; discriminate|].
    exists rot0. split; [done|]. unfold near_baseline. repeat split; lra. }
  destruct (run_turn_inv rot0 sz evs s0 Hw Hh Hall H0)
    as (s & Hrun & _ & _ & _ & _ & _ & (r & Hr & Hx & Hy)).
  by exists s0, s, r.
Qed.

Lemma camera_turn_is_bounded_witness :
  0 < Size.width viewer_size ∧ 0 < Size.height viewer_size
  ∧ ∃ s0 s r,
      Scene viewer_rot0 viewer_size = Some s0
      ∧ run [PointerMove (mkPointerEvent 800 0); Frame; Wheel (mkWheelEvent 1)] s0
        = Some s
      ∧ rotation s = Some r
      ∧ (Euler.x viewer_rot0 - 0.025 <= Euler.x r <= Euler.x viewer_rot0 + 0.025)
      ∧ (Euler.y viewer_rot0 - 0.035 <= Euler.y r <= Euler.y viewer_rot0 + 0.035).
Proof.
  assert (Hw : 0 < Size.width viewer_size) by reflexivity.
  assert (Hh : 0 < Size.height viewer_size) by reflexivity.
  split; [exact Hw|]. split; [exact Hh|].
  apply (camera_turn_is_bounded viewer_rot0 viewer_size
           [PointerMove (mkPointerEvent 800 0); Frame; Wheel (mkWheelEvent 1)] Hw Hh).
  repeat constructor; simpl; discriminate.
Defined.

(** ** The pointer as a coordinate *)

Lemma normalise_lt (c1 c2 w : Q) :
  0 < w → (c1 < c2 ↔ c1 / w * 2 - 1 < c2 / w * 2 - 1).
Proof.
  intros Hw.
  pose proof (Qmult_div_r c1 w ltac:(lra)) as Hq1.
  pose proof (Qmult_div_r c2 w ltac:(lra)) as Hq2.
  set (q1 := c1 / w) in *. set (q2 := c2 / w) in *. clearbody q1 q2.
  split; intros H; nra.
Qed.

Lemma normalise_inverse (c w : Q) :
  0 < w → (c / w * 2 - 1 + 1) / 2 * w == c.
Proof. intros Hw. field. lra. Qed.

Lemma normalise_mirror (c w : Q) :
  0 < w → (w - c) / w * 2 - 1 == - (c / w * 2 - 1).
Proof. intros Hw. field. lra. Qed.

(** X8: in exact arithmetic, for a viewport of positive size the pointer
    state determines the pointer position and follows it:
    (x + 1) / 2 * width gives clientX back, x grows strictly with clientX,
    and the position mirrored in the middle of the viewport gives the
    opposite x; the same holds for y, clientY and the height. *)
Theorem pointer_state_is_a_coordinate (s : Rig) (e1 e2 : PointerEvent) :
  0 < Size.width (size s) → 0 < Size.height (size s) →
  (Mouse.x (mouse (handlePointerMove e1 s)) + 1) / 2 * Size.width (size s)
  == clientX e1
  ∧ (Mouse.y (mouse (handlePointerMove e1 s)) + 1) / 2 * Size.height (size s)
    == clientY e1
  ∧ (clientX e1 < clientX e2
     ↔ Mouse.x (mouse (handlePointerMove e1 s)) < Mouse.x (mouse (handlePointerMove e2 s)))
  ∧ (clientY e1 < clientY e2
     ↔ Mouse.y (mouse (handlePointerMove e1 s)) < Mouse.y (mouse (handlePointerMove e2 s)))
  ∧ (clientX e2 == Size.width (size s) - clientX e1 →
     Mouse.x (mouse (handlePointerMove e2 s)) == - Mouse.x (mouse (handlePointerMove e1 s)))
  ∧ (clientY e2 == Size.height (size s) - clientY e1 →
     Mouse.y (mouse (handlePointerMove e2 s)) == - Mouse.y (mouse (handlePointerMove e1 s))).
Proof.
  intros Hw Hh. simpl.
  split; [by apply normalise_inverse|]. split; [by apply normalise_inverse|].
  split; [by apply normalise_lt|]. split; [by apply normalise_lt|].
  split; intros ->; by apply normalise_mirror.
Qed.

Lemma pointer_state_is_a_coordinate_witness :
  0 < Size.width (size viewer) ∧ 0 < Size.height (size viewer)
  ∧ Mouse.x (mouse (handlePointerMove (mkPointerEvent 600 150) viewer))
    == - Mouse.x (mouse (handlePointerMove (mkPointerEvent 200 450) viewer))
  ∧ Mouse.y (mouse (handlePointerMove (mkPointerEvent 200 450) viewer))
    < Mouse.y (mouse (handlePointerMove (mkPointerEvent 200 500) viewer)).
Proof.
  assert (Hw : 0 < Size.width (size viewer)) by reflexivity.
  assert (Hh : 0 < Size.height (size viewer)) by reflexivity.
  split; [exact Hw|]. split; [exact Hh|]. split.
  - destruct (pointer_state_is_a_coordinate viewer (mkPointerEvent 200 450)
                (mkPointerEvent 600 150) Hw Hh) as (_ & _ & _ & _ & Hmx & _).
    apply Hmx. reflexivity.
  - destruct (pointer_state_is_a_coordinate viewer (mkPointerEvent 200 450)
                (mkPointerEvent 200 500) Hw Hh) as (_ & _ & _ & Hy & _).
    apply Hy. reflexivity.
Defined.

(** X9: the direction of the response, in exact arithmetic.  Take two
    frames that read the pointer state stored for two pointer events, that
    is, frames that run once the render queued by [setMouse] has happened,
    with the same baseline and the same viewport of positive size.  The
    event with the larger clientX gives the strictly smaller yaw
    (rotation.y), the one with the larger clientY the strictly smaller pitch
    (rotation.x), and the two rotations agree in x and y exactly when the two
    events agree in clientX and clientY. *)
Theorem pointer_steers_camera (s1 s2 : Rig) (e1 e2 : PointerEvent) (r0 : Euler.t) :
  rig_ok s1 = true → rig_ok s2 = true →
  rotationBaseline s1 = Some r0 → rotationBaseline s2 = Some r0 →
  size s1 = size s2 →
  0 < Size.width (size s1) → 0 < Size.height (size s1) →
  mouse s1 = mouse (handlePointerMove e1 s1) →
  mouse s2 = mouse (handlePointerMove e2 s2) →
  ∃ s1' s2' r1 r2,
    useFrame s1 = Some s1' ∧ rotation s1' = Some r1
    ∧ useFrame s2 = Some s2' ∧ rotation s2' = Some r2
    ∧ (clientX e1 < clientX e2 ↔ Euler.y r2 < Euler.y r1)
    ∧ (clientY e1 < clientY e2 ↔ Euler.x r2 < Euler.x r1)
    ∧ (Euler.x r1 == Euler.x r2 ∧ Euler.y r1 == Euler.y r2
       ↔ clientX e1 == clientX e2 ∧ clientY e1 == clientY e2).
Proof.
  intros Hok1 Hok2 Hb1 Hb2 Hsz Hw Hh Hm1 Hm2.
  destruct (rig_ok_parts s1 Hok1) as (p1 & q1 & b1 & t1 & o1 & Hp1 & Hr1 & _ & Ht1 & _).
  destruct (rig_ok_parts s2 Hok2) as (p2 & q2 & b2 & t2 & o2 & Hp2 & Hr2 & _ & Ht2 & _).
  destruct (useFrame_spec s1 r0 q1 p1 t1 Hok1 Hb1 Hr1 Hp1 Ht1) as (s1' & Hs1 & Hr1' & _).
  destruct (useFrame_spec s2 r0 q2 p2 t2 Hok2 Hb2 Hr2 Hp2 Ht2) as (s2' & Hs2 & Hr2' & _).
  exists s1', s2'. eexists. eexists.
  split; [exact Hs1|]. split; [exact Hr1'|].
  split; [exact Hs2|]. split; [exact Hr2'|].
  rewrite Hm1, Hm2. simpl. rewrite <- Hsz.
  pose proof (normalise_lt (clientX e1) (clientX e2) _ Hw) as Hx.
  pose proof (normalise_lt (clientY e1) (clientY e2) _ Hh) as Hy.
  pose proof (normalise_lt (clientX e2) (clientX e1) _ Hw) as Hx'.
  pose proof (normalise_lt (clientY e2) (clientY e1) _ Hh) as Hy'.
  set (x1 := clientX e1 / Size.width (size s1) * 2 - 1) in *.
  set (x2 := clientX e2 / Size.width (size s1) * 2 - 1) in *.
  set (y1 := clientY e1 / Size.height (size s1) * 2 - 1) in *.
  set (y2 := clientY e2 / Size.height (size s1) * 2 - 1) in *.
  clearbody x1 x2 y1 y2.
  split; [rewrite Hx; split; lra|]. split; [rewrite Hy; split; lra|].
  split.
  - intros (Hex & Hey).
    split.
    + destruct (Qlt_le_dec (clientX e1) (clientX e2)) as [H|H]; [apply Hx in H; lra|].
      destruct (Qlt_le_dec (clientX e2) (clientX e1)) as [H'|H']; [apply Hx' in H'; lra|].
      lra.
    + destruct (Qlt_le_dec (clientY e1) (clientY e2)) as [H|H]; [apply Hy in H; lra|].
      destruct (Qlt_le_dec (clientY e2) (clientY e1)) as [H'|H']; [apply Hy' in H'; lra|].
      lra.
  - intros [Hcx Hcy].
    assert (¬ x1 < x2) by (rewrite <- Hx; lra).
    assert (¬ x2 < x1) by (rewrite <- Hx'; lra).
    assert (¬ y1 < y2) by (rewrite <- Hy; lra).
    assert (¬ y2 < y1) by (rewrite <- Hy'; lra).
    split; lra.
Qed.

Lemma pointer_steers_camera_witness :
  rig_ok (handlePointerMove (mkPointerEvent 100 300) viewer) = true
  ∧ rig_ok (handlePointerMove (mkPointerEvent 700 300) viewer_scrolled) = true
  ∧ ∃ s1' s2' r1 r2,
      useFrame (handlePointerMove (mkPointerEvent 100 300) viewer) = Some s1'
      ∧ rotation s1' = Some r1
      ∧ useFrame (handlePointerMove (mkPointerEvent 700 300) viewer_scrolled) = Some s2'
      ∧ rotation s2' = Some r2
      ∧ Euler.y r2 < Euler.y r1.
Proof.
  assert (Hok1 : rig_ok (handlePointerMove (mkPointerEvent 100 300) viewer) = true)
    by (vm_compute; reflexivity).
  assert (Hok2 : rig_ok (handlePointerMove (mkPointerEvent 700 300) viewer_scrolled) = true)
    by (vm_compute; reflexivity).
  split; [exact Hok1|]. split; [exact Hok2|].
  destruct (pointer_steers_camera
              (handlePointerMove (mkPointerEvent 100 300) viewer)
              (handlePointerMove (mkPointerEvent 700 300) viewer_scrolled)
              (mkPointerEvent 100 300) (mkPointerEvent 700 300) viewer_rot0
              Hok1 Hok2)
    as (s1' & s2' & r1 & r2 & H1 & Hr1 & H2 & Hr2 & Hyaw & _);
    try reflexivity.
  exists s1', s2', r1, r2. repeat split; try done. apply Hyaw. reflexivity.
Defined.

(** * The loaded model *)

(** Induction on a scene graph: a property of an object follows from the
    property of its children. *)
Lemma Object3D_ind (P : Object3D.t → Prop) :
  (∀ f ch, Forall P ch → P (Object3D.mk f ch)) → ∀ o, P o.
Proof.
  intros H. fix IH 1. intros [f ch]. apply H.
  induction ch as [|c ch IHch]; constructor; [apply IH|exact IHch].
Qed.

Lemma enableShadows_kept (f : Object3D.fields) : kept f (enableShadows f).
Proof.
  unfold kept, enableShadows. destruct (Object3D.isMesh f) eqn:Hm; simpl; [|done].
  repeat split; try done; intros; congruence.
Qed.

Lemma enableShadows_lit (f : Object3D.fields) :
  Object3D.isMesh (enableShadows f) = true →
  Object3D.castShadow (enableShadows f) = true
  ∧ Object3D.receiveShadow (enableShadows f) = true.
Proof.
  unfold enableShadows. destruct (Object3D.isMesh f) eqn:Hm; simpl; [done|congruence].
Qed.

Lemma enableShadows_twice (f : Object3D.fields) :
  enableShadows (enableShadows f) = enableShadows f.
Proof.
  unfold enableShadows. destruct (Object3D.isMesh f) eqn:Hm; simpl; [done|].
  by rewrite Hm.
Qed.

Lemma traverse_nodes (callback : Object3D.fields → Object3D.fields) (o : Object3D.t) :
  Object3D.nodes (Object3D.traverse callback o)
  = List.map callback (Object3D.nodes o).
Proof.
  induction o as [f ch IH] using Object3D_ind. simpl. f_equal.
  induction IH as [|c ch Hc _ IHch]; simpl; [done|].
  by rewrite List.map_app, Hc, IHch.
Qed.

Lemma traverse_twice (o : Object3D.t) :
  Object3D.traverse enableShadows (Object3D.traverse enableShadows o)
  = Object3D.traverse enableShadows o.
Proof.
  induction o as [f ch IH] using Object3D_ind. simpl.
  rewrite enableShadows_twice. f_equal.
  induction IH as [|c ch Hc _ IHch]; simpl; [done|]. by rewrite Hc, IHch.
Qed.

Lemma isEmpty_false (b : Box3.t) :
  Box3.isEmpty b = false ↔
  Vector3.x (Box3.min b) <= Vector3.x (Box3.max b)
  ∧ Vector3.y (Box3.min b) <= Vector3.y (Box3.max b)
  ∧ Vector3.z (Box3.min b) <= Vector3.z (Box3.max b).
Proof.
  unfold Box3.isEmpty.
  destruct (Qlt_le_dec (Vector3.x (Box3.max b)) (Vector3.x (Box3.min b)));
    destruct (Qlt_le_dec (Vector3.y (Box3.max b)) (Vector3.y (Box3.min b)));
    destruct (Qlt_le_dec (Vector3.z (Box3.max b)) (Vector3.z (Box3.min b)));
    simpl; split; try done; intros (? & ? & ?); lra.
Qed.

Lemma Model_effect_root (box : Box3.t) (scene : Object3D.t) :
  root_position (Model_effect box scene)
  = Vector3.mk
      (Vector3.x (root_position scene) - Vector3.x (Box3.getCenter box))
      (Vector3.y (root_position scene) - Vector3.y (Box3.min box))
      (Vector3.z (root_position scene) - Vector3.z (Box3.getCenter box))
  ∧ Object3D.children (Model_effect box scene)
    = List.map (Object3D.traverse enableShadows) (Object3D.children scene)
  ∧ kept (Object3D.mkFields (Object3D.isMesh (Object3D.own scene))
            (Object3D.castShadow (Object3D.own scene))
            (Object3D.receiveShadow (Object3D.own scene))
            (root_position (Model_effect box scene)))
         (Object3D.own (Model_effect box scene)).
Proof.
  destruct scene as [[m c r p] ch]. unfold Model_effect, root_position. simpl.
  unfold enableShadows, kept. simpl. destruct m; simpl; repeat split; try done;
    intros; congruence.
Qed.

Lemma flat_map_traverse (callback : Object3D.fields → Object3D.fields)
    (ch : list Object3D.t) :
  List.flat_map Object3D.nodes (List.map (Object3D.traverse callback) ch)
  = List.map callback (List.flat_map Object3D.nodes ch).
Proof.
  induction ch as [|c ch IH]; simpl; [done|].
  by rewrite List.map_app, traverse_nodes, IH.
Qed.

(** X10: in exact arithmetic, the move [Model] gives the root carries the
    bounding box, when it is not empty, to a box of the same extents whose
    centre has x = 0 and z = 0 and whose lowest point has y = 0: the model is
    centred on the vertical axis and stands on the ground. *)
Theorem Model_centres_box (box : Box3.t) (scene : Object3D.t) :
  Box3.isEmpty box = false →
  let moved :=
    Box3.translate box
      (displacement (root_position scene) (root_position (Model_effect box scene))) in
  Vector3.x (Box3.getCenter moved) == 0
  ∧ Vector3.z (Box3.getCenter moved) == 0
  ∧ Vector3.y (Box3.min moved) == 0
  ∧ Box3.isEmpty moved = false
  ∧ Vector3.equals (displacement (Box3.min moved) (Box3.max moved))
                   (displacement (Box3.min box) (Box3.max box)).
Proof.
  intros Hne moved.
  assert (Hmoved : Box3.isEmpty moved = false).
  { apply isEmpty_false. apply isEmpty_false in Hne. unfold moved.
    destruct (Model_effect_root box scene) as (-> & _). simpl. lra. }
  pose proof Hmoved as Hm. unfold Box3.getCenter. rewrite Hm.
  unfold moved. destruct (Model_effect_root box scene) as (-> & _).
  unfold Box3.getCenter. rewrite Hne. unfold Vector3.equals. simpl.
  repeat split; try done; lra.
Qed.

Lemma Model_centres_box_witness :
  Box3.isEmpty sample_box = false
  ∧ Vector3.y
      (Box3.min
         (Box3.translate sample_box
            (displacement (root_position sample_scene)
               (root_position (Model_effect sample_box sample_scene))))) == 0.
Proof.
  assert (Hne : Box3.isEmpty sample_box = false) by reflexivity.
  split; [exact Hne|]. apply (Model_centres_box sample_box sample_scene Hne).
Defined.

(** X11: in exact arithmetic, running the effect of [Model] again on the
    placed graph, with the box moved along with it, changes nothing: the
    root stays where it is and every object of the graph keeps its flags. *)
Theorem Model_effect_twice (box : Box3.t) (scene : Object3D.t) :
  Box3.isEmpty box = false →
  let placed := Model_effect box scene in
  let moved :=
    Box3.translate box (displacement (root_position scene) (root_position placed)) in
  Vector3.equals (root_position (Model_effect moved placed)) (root_position placed)
  ∧ Object3D.children (Model_effect moved placed) = Object3D.children placed
  ∧ Object3D.isMesh (Object3D.own (Model_effect moved placed))
    = Object3D.isMesh (Object3D.own placed)
  ∧ Object3D.castShadow (Object3D.own (Model_effect moved placed))
    = Object3D.castShadow (Object3D.own placed)
  ∧ Object3D.receiveShadow (Object3D.own (Model_effect moved placed))
    = Object3D.receiveShadow (Object3D.own placed).
Proof.
  intros Hne placed moved.
  assert (Hmoved : Box3.isEmpty moved = false).
  { apply isEmpty_false. apply isEmpty_false in Hne. unfold moved, placed.
    destruct (Model_effect_root box scene) as (-> & _). simpl. lra. }
  split.
  - destruct (Model_effect_root moved placed) as (-> & _).
    unfold Box3.getCenter. rewrite Hmoved. unfold moved, placed.
    destruct (Model_effect_root box scene) as (-> & _).
    unfold Box3.getCenter. rewrite Hne. unfold Vector3.equals. simpl.
    repeat split; lra.
  - clear Hmoved. unfold moved, placed. clear moved placed.
    destruct scene as [[m c r p] ch]. unfold Model_effect. simpl.
    split.
    { rewrite List.map_map. apply List.map_ext. intros o. apply traverse_twice. }
    unfold enableShadows. simpl. by destruct m.
Qed.

Lemma Model_effect_twice_witness :
  Box3.isEmpty sample_box = false
  ∧ Vector3.equals
      (root_position
         (Model_effect
            (Box3.translate sample_box
               (displacement (root_position sample_scene)
                  (root_position (Model_effect sample_box sample_scene))))
            (Model_effect sample_box sample_scene)))
      (root_position (Model_effect sample_box sample_scene)).
Proof.
  assert (Hne : Box3.isEmpty sample_box = false) by reflexivity.
  split; [exact Hne|]. apply (Model_effect_twice sample_box sample_scene Hne).
Defined.

(** X12: after the effect of [Model] every mesh of the graph, the root
    included and at any depth, casts and receives shadows. *)
Theorem Model_lights_every_mesh (box : Box3.t) (scene : Object3D.t) :
  Forall (λ f, Object3D.isMesh f = true →
               Object3D.castShadow f = true ∧ Object3D.receiveShadow f = true)
         (Object3D.nodes (Model_effect box scene)).
Proof.
  unfold Model_effect. rewrite traverse_nodes.
  apply Forall_forall. intros f Hf.
  apply list_elem_of_In, List.in_map_iff in Hf as (g & <- & _).
  apply enableShadows_lit.
Qed.

Lemma traverse_kept_graph (o : Object3D.t) :
  kept_graph o (Object3D.traverse enableShadows o).
Proof.
  induction o as [f ch IH] using Object3D_ind. simpl.
  constructor; [apply enableShadows_kept|].
  induction IH as [|c ch Hc _ IHch]; simpl; constructor; done.
Qed.

(** X13: the effect of [Model] touches nothing else.  The graph keeps its
    shape: every object has as many children as before, in the same order,
    and so on below them; every object below the root keeps its position;
    every object keeps its kind, and an object that is not a mesh keeps its
    two shadow flags.  The order in which the objects are visited is the
    same too. *)
Theorem Model_keeps_the_rest (box : Box3.t) (scene : Object3D.t) :
  Forall2 kept_graph (Object3D.children scene)
                     (Object3D.children (Model_effect box scene))
  ∧ Forall2 kept
      (List.flat_map Object3D.nodes (Object3D.children scene))
      (List.flat_map Object3D.nodes (Object3D.children (Model_effect box scene)))
  ∧ Object3D.isMesh (Object3D.own (Model_effect box scene))
    = Object3D.isMesh (Object3D.own scene)
  ∧ (Object3D.isMesh (Object3D.own scene) = false →
     Object3D.castShadow (Object3D.own (Model_effect box scene))
     = Object3D.castShadow (Object3D.own scene)
     ∧ Object3D.receiveShadow (Object3D.own (Model_effect box scene))
       = Object3D.receiveShadow (Object3D.own scene)).
Proof.
  destruct (Model_effect_root box scene) as (_ & -> & Hm & _ & Hflags).
  split; [|split; [|split; [exact Hm|exact Hflags]]].
  - induction (Object3D.children scene) as [|c ch IH]; simpl; constructor;
      [apply traverse_kept_graph|exact IH].
  - rewrite flat_map_traverse.
    induction (List.flat_map Object3D.nodes (Object3D.children scene)) as [|f l IH];
      simpl; constructor; [apply enableShadows_kept|exact IH].
Qed.

(** * The listeners *)

Lemma foreign_not_own (w0 : list Listeners.listener) (type : string) (f : Listeners.fn) :
  Forall Listeners.foreign w0 → (type, Listeners.Own f) ∉ w0.
Proof.
  intros Hall Hin. rewrite Forall_forall in Hall. by apply Hall in Hin.
Qed.

Lemma remove_foreign (w0 : list Listeners.listener) (type : string) (f : Listeners.fn) :
  Forall Listeners.foreign w0 →
  Listeners.removeEventListener type (Listeners.Own f) w0 = w0.
Proof.
  unfold Listeners.removeEventListener.
  induction 1 as [|l w0 Hl _ IH]; simpl; [done|].
  rewrite IH. destruct l as [ty [g|k]]; [done|].
  by rewrite bool_decide_eq_false_2.
Qed.

Lemma remove_app (w w' : list Listeners.listener) (type : string)
    (cb : Listeners.callback) :
  Listeners.removeEventListener type cb (w ++ w')
  = Listeners.removeEventListener type cb w
    ++ Listeners.removeEventListener type cb w'.
Proof. apply List.filter_app. Qed.

Lemma attach_foreign (w0 : list Listeners.listener) (hp hw : Listeners.fn) :
  Forall Listeners.foreign w0 →
  Listeners.attach hp hw w0
  = w0 ++ [("pointermove"%string, Listeners.Own hp); ("wheel"%string, Listeners.Own hw)].
Proof.
  intros Hall. unfold Listeners.attach, Listeners.addEventListener.
  destruct (decide (("pointermove"%string, Listeners.Own hp) ∈ w0)) as [Hin|_];
    [by apply foreign_not_own in Hin|].
  destruct (decide (("wheel"%string, Listeners.Own hw)
                    ∈ w0 ++ [("pointermove"%string, Listeners.Own hp)])) as [Hin|_].
  - apply elem_of_app in Hin as [Hin|Hin].
    + by apply foreign_not_own in Hin.
    + apply list_elem_of_singleton in Hin. discriminate Hin.
  - by rewrite <- app_assoc.
Qed.

Lemma detach_attached (w0 : list Listeners.listener) (hp hw : Listeners.fn) :
  Forall Listeners.foreign w0 →
  Listeners.detach hp hw
    (w0 ++ [("pointermove"%string, Listeners.Own hp); ("wheel"%string, Listeners.Own hw)])
  = w0.
Proof.
  intros Hall. unfold Listeners.detach.
  rewrite (remove_app w0), (remove_foreign w0 _ _ Hall).
  unfold Listeners.removeEventListener at 2. simpl.
  rewrite bool_decide_eq_true_2 by done. simpl.
  rewrite (remove_app w0), (remove_foreign w0 _ _ Hall).
  unfold Listeners.removeEventListener. simpl.
  rewrite bool_decide_eq_true_2 by done. simpl.
  by rewrite app_nil_r.
Qed.

Lemma mount_attached (w0 : list Listeners.listener) (sz : nat) :
  Forall Listeners.foreign w0 → attached w0 sz (Listeners.mount sz w0).
Proof.
  intros Hall. exists 0%nat. unfold Listeners.mount. simpl.
  repeat split; try done; try lia. by apply attach_foreign.
Qed.

Lemma render_attached (w0 : list Listeners.listener) (sz sz' : nat)
    (cw : Listeners.Component * list Listeners.listener) :
  Forall Listeners.foreign w0 → attached w0 sz cw →
  attached w0 sz' (Listeners.render sz' cw).
Proof.
  intros Hall (k & Hk & Hsz & Hp & Hw & Hdeps & Hwin).
  destruct cw as [c w]. simpl in *. unfold Listeners.render.
  rewrite Hsz, Hp, Hw, Hdeps. simpl.
  destruct (decide (sz' = sz)) as [->|Hne].
  - exists k. rewrite decide_True by done. simpl. repeat split; try done. lia.
  - exists (Listeners.renders c). rewrite decide_False by congruence. simpl.
    repeat split; try done; try lia.
    rewrite Hwin, detach_attached by done. by apply attach_foreign.
Qed.

Lemma last_cons (l : list nat) (a d : nat) :
  List.last (a :: l) d = List.last l a.
Proof.
  revert a d. induction l as [|b l IH]; intros a d; [done|].
  change (List.last (a :: b :: l) d) with (List.last (b :: l) d).
  rewrite IH. symmetry. apply IH.
Qed.

Lemma mounted_attached (w0 : list Listeners.listener) (sz : nat) (szs : list nat) :
  Forall Listeners.foreign w0 →
  attached w0 (List.last szs sz) (Listeners.mounted sz szs w0).
Proof.
  intros Hall. unfold Listeners.mounted.
  pose proof (mount_attached w0 sz Hall) as Hinv.
  revert Hinv. generalize (Listeners.mount sz w0). revert sz.
  induction szs as [|sz' szs IH]; intros sz cw Hinv; [done|].
  simpl fold_left.
  rewrite last_cons. apply IH. by apply (render_attached w0 sz).
Qed.

(** X14: unmounting gives the window back as it was.  Whatever listeners of
    other code [window] held at mount, and however many renders with
    whatever size objects came in between, after the cleanup the listener
    list is the one from before the mount; no handler of the component
    stays behind. *)
Theorem unmount_restores_window (w0 : list Listeners.listener) (sz : nat)
    (szs : list nat) :
  Forall Listeners.foreign w0 →
  Listeners.unmount (Listeners.mounted sz szs w0) = w0.
Proof.
  intros Hall.
  destruct (mounted_attached w0 sz szs Hall) as (k & _ & _ & _ & _ & Hdeps & Hwin).
  destruct (Listeners.mounted sz szs w0) as [c w]. simpl in *.
  unfold Listeners.unmount. rewrite Hdeps, Hwin. by apply detach_attached.
Qed.

Lemma unmount_restores_window_witness :
  Forall Listeners.foreign [("wheel"%string, Listeners.Other 7)]
  ∧ Listeners.unmount
      (Listeners.mounted 0 [0%nat; 1%nat; 1%nat] [("wheel"%string, Listeners.Other 7)])
    = [("wheel"%string, Listeners.Other 7)].
Proof.
  assert (Hall : Forall Listeners.foreign [("wheel"%string, Listeners.Other 7)]).
  { by repeat constructor. }
  split; [exact Hall|]. apply (unmount_restores_window _ 0%nat _ Hall).
Defined.

(** X15: while the component is mounted, [window] lists exactly one
    pointer-move handler and one wheel handler of the component, after the
    listeners that were there before; the pointer-move handler is the one
    that closes over the size object of the latest render, and the wheel
    handler is the one of the first render.  A render that sees the same
    size object again leaves the listener list untouched. *)
Theorem one_listener_per_event (w0 : list Listeners.listener) (sz : nat)
    (szs : list nat) :
  Forall Listeners.foreign w0 →
  ∃ k : nat,
    (Listeners.mounted sz szs w0).2
    = w0 ++ [("pointermove"%string,
              Listeners.Own (Listeners.HandlePointerMove k (List.last szs sz)));
             ("wheel"%string, Listeners.Own (Listeners.HandleWheel 0))]
    ∧ (Listeners.render (List.last szs sz) (Listeners.mounted sz szs w0)).2
      = (Listeners.mounted sz szs w0).2.
Proof.
  intros Hall.
  destruct (mounted_attached w0 sz szs Hall) as (k & _ & Hsz & Hp & Hw & Hdeps & Hwin).
  exists k. split; [exact Hwin|].
  destruct (Listeners.mounted sz szs w0) as [c w]. simpl in *.
  rewrite Hsz, Hp, Hw, Hdeps.
  destruct (decide (List.last szs sz = List.last szs sz)) as [_|Hne]; [|done].
  by rewrite decide_True.
Qed.

Lemma one_listener_per_event_witness :
  Forall Listeners.foreign [("wheel"%string, Listeners.Other 7)]
  ∧ ∃ k : nat,
      (Listeners.mounted 0 [0%nat; 1%nat; 1%nat] [("wheel"%string, Listeners.Other 7)]).2
      = [("wheel"%string, Listeners.Other 7);
         ("pointermove"%string, Listeners.Own (Listeners.HandlePointerMove k 1));
         ("wheel"%string, Listeners.Own (Listeners.HandleWheel 0))].
Proof.
  assert (Hall : Forall Listeners.foreign [("wheel"%string, Listeners.Other 7)]).
  { by repeat constructor. }
  split; [exact Hall|].
  destruct (one_listener_per_event _ 0%nat [0%nat; 1%nat; 1%nat] Hall) as (k & Hwin & _).
  by exists k.
Defined.

(** * The arithmetic of the host *)


(** The stalled position is a fixed point of the frame, short of the
    target. *)
Lemma binary64_frame_fixed_point :
  Binary64.equals
    (Binary64.useFrame_position Binary64.scrolled_target Binary64.late_position)
    Binary64.late_position = true
  ∧ Binary64.equals Binary64.late_position Binary64.scrolled_target = false
  ∧ PrimFloat.ltb (Binary64.y Binary64.late_position)
                  (Binary64.y Binary64.scrolled_target) = true.
Proof. repeat split; vm_compute; reflexivity. Qed.


(** One step does not add the number 0.1 either: from 1.05 the difference to
    the previous value is 0.10000000000000009. *)
Lemma binary64_step_from_1_05 :
  PrimFloat.eqb
    (PrimFloat.sub (Binary64.scroll_step Binary64.lit_1_05) Binary64.lit_1_05)
    Binary64.lit_0_1 = false.
Proof. vm_compute. reflexivity. Qed.

